(** * Enter The Forest: the story graph loader, the generation parser and the
      scene resolver of [main.py], embedded in Rocq.

    The program is a Python script.  Its data are the objects [json.loads]
    builds (dictionaries with string keys in insertion order, lists, strings,
    numbers, booleans and [None]); its failures are Python exceptions; its
    effects are updates of four Tk widgets and one background thread per
    hinted node.  The embedding keeps these three layers apart:

    - [value], [exn] and [result] model Python objects and exceptions;
    - [json_loads] models the standard [json] decoder the script calls;
    - [load_story], [parse_scene_and_options_json], [show_node], [work],
      [update] and [build_ui] are translated from the script, function by
      function, in a state-and-exception monad over the widget state. *)

From Stdlib Require Import String Ascii List NArith ZArith Bool Lia.
Import ListNotations.

Set Implicit Arguments.
Set Warnings "-register-all".

(* ================================================================== *)
(** ** Python strings, values and exceptions *)

(** A Python [str] is a sequence of Unicode code points. *)
Definition char := N.
Definition str := list char.

(** An ASCII literal of the script, as a [str]. *)
Definition lit (s : string) : str := map N_of_ascii (list_ascii_of_string s).
Arguments lit s%_string : simpl never.

(** A literal in which the apostrophe stands for the quotation mark
    (code point 34), to write JSON texts legibly. *)
Definition quoted (s : string) : str :=
  map (fun c => if N.eqb c 39 then 34%N else c) (lit s).
Arguments quoted s%_string : simpl never.

Fixpoint str_eqb (a b : str) : bool :=
  match a, b with
  | [], [] => true
  | x :: a', y :: b' => N.eqb x y && str_eqb a' b'
  | _, _ => false
  end.

(** [float]: the decoder reads a decimal literal [m * 10^e], or one of the
    three constants it accepts.  The script only ever asks whether a float is
    zero, so the literal is kept exact and the rounding to binary64 is
    applied where it is observed ([float_is_zero]). *)
Inductive pyfloat :=
| FDec (m e : Z)
| FNaN
| FInf (negative : bool).

Inductive value :=
| VNone
| VBool (b : bool)
| VInt (z : Z)
| VFloat (f : pyfloat)
| VStr (s : str)
| VList (l : list value)
| VDict (d : list (str * value)).

(** A [dict] with [str] keys: the pairs in insertion order, keys unique. *)
Definition dict := list (str * value).

(** The human-readable cause an exception of [load_story] carries: one
    constructor per message template, with the values interpolated in it. *)
Inductive cause :=
| StoryFileNotFound
| NotValidJSON
| TopLevelNotObject
| NodeTextNotString (node_id : str)
| OptionsNotList (node_id : str)
| OptionUnknownNode (node_id : str) (nxt : value)
| HintWithoutRoute (node_id : str)
| NextMapNotList (node_id : str)
| NextMapEntryNotString (node_id : str)
| NextMapUnknownNode (node_id : str) (t : value)
| NextUnknownNode (node_id : str) (nxt : value).

Inductive exn :=
| FileNotFoundError (c : cause)
| ValueError (c : cause)
| TypeError
| AttributeError
| KeyError (k : value)
| IndexError
| NameError
| OSError
| UnicodeDecodeError
| ServiceError (msg : str)
| SystemExit (code : Z).

(** The class of an exception, as [type(e)] gives it. *)
Inductive exn_kind :=
| KFileNotFoundError | KValueError | KTypeError | KAttributeError | KKeyError
| KIndexError | KNameError | KOSError | KUnicodeDecodeError | KServiceError | KSystemExit.

Definition kind_of (e : exn) : exn_kind :=
  match e with
  | FileNotFoundError _ => KFileNotFoundError
  | ValueError _ => KValueError
  | TypeError => KTypeError
  | AttributeError => KAttributeError
  | KeyError _ => KKeyError
  | IndexError => KIndexError
  | NameError => KNameError
  | OSError => KOSError
  | UnicodeDecodeError => KUnicodeDecodeError
  | ServiceError _ => KServiceError
  | SystemExit _ => KSystemExit
  end.

(** A Python computation either returns or raises. *)
Inductive result (A : Type) :=
| Return (a : A)
| Raise (e : exn).
Arguments Raise {A} e.

Definition bind {A B} (r : result A) (k : A -> result B) : result B :=
  match r with
  | Return a => k a
  | Raise e => Raise e
  end.

Notation "x <- e ;; k" := (bind e (fun x => k))
  (at level 61, e at next level, right associativity).
Notation "e ;;; k" := (bind e (fun _ => k))
  (at level 61, right associativity).

(* ------------------------------------------------------------------ *)
(** *** Built-in operations the script uses *)

(** [bool(float)]: false exactly when the literal rounds to zero, that is
    when its magnitude is at most half the least subnormal, [2^-1075]. *)
Definition float_is_zero (f : pyfloat) : bool :=
  match f with
  | FDec m e =>
      if (0 <=? e)%Z then (m =? 0)%Z
      else (Z.abs m * 2 ^ 1075 <=? 10 ^ (- e))%Z
  | FNaN => false
  | FInf _ => false
  end.

(** [bool(v)] *)
Definition truthy (v : value) : bool :=
  match v with
  | VNone => false
  | VBool b => b
  | VInt z => negb (z =? 0)%Z
  | VFloat f => negb (float_is_zero f)
  | VStr s => match s with [] => false | _ => true end
  | VList l => match l with [] => false | _ => true end
  | VDict d => match d with [] => false | _ => true end
  end.

Definition is_str (v : value) : bool :=
  match v with VStr _ => true | _ => false end.

Definition is_list (v : value) : bool :=
  match v with VList _ => true | _ => false end.

Definition is_none (v : value) : bool :=
  match v with VNone => true | _ => false end.

(** [d.get(k)] on the pairs: [None] when the key is absent. *)
Fixpoint lookup (k : str) (d : dict) : option value :=
  match d with
  | [] => None
  | (k', v) :: d' => if str_eqb k k' then Some v else lookup k d'
  end.

(** [k in d] for a [str] key. *)
Definition has_key (k : str) (d : dict) : bool :=
  match lookup k d with Some _ => true | None => false end.

(** [d[k] = v]: a present key keeps its place, a new one goes last. *)
Fixpoint dict_set (d : dict) (k : str) (v : value) : dict :=
  match d with
  | [] => [(k, v)]
  | (k', v') :: d' =>
      if str_eqb k k' then (k', v) :: d' else (k', v') :: dict_set d' k v
  end.

Fixpoint is_prefix (p s : str) : bool :=
  match p, s with
  | [], _ => true
  | x :: p', y :: s' => N.eqb x y && is_prefix p' s'
  | _ :: _, [] => false
  end.

(** [p in s] for two strings: [p] occurs in [s]. *)
Fixpoint is_substring (p s : str) : bool :=
  is_prefix p s ||
  match s with
  | [] => false
  | _ :: s' => is_substring p s'
  end.

(** [k in v] for a [str] [k]: key membership in a dict, substring test in a
    string, element test in a list; the other types are not iterable. *)
Definition py_contains (k : str) (v : value) : result bool :=
  match v with
  | VDict d => Return (has_key k d)
  | VStr s => Return (is_substring k s)
  | VList l => Return (existsb (fun x => match x with
                                          | VStr s => str_eqb k s
                                          | _ => false
                                          end) l)
  | _ => Raise TypeError
  end.

(** [v[k]] for a [str] [k]. *)
Definition py_getitem (v : value) (k : str) : result value :=
  match v with
  | VDict d => match lookup k d with
               | Some x => Return x
               | None => Raise (KeyError (VStr k))
               end
  | _ => Raise TypeError
  end.

(** [v.get(k, default)]: only a dict has the method. *)
Definition py_get (v : value) (k : str) (default : value) : result value :=
  match v with
  | VDict d => match lookup k d with
               | Some x => Return x
               | None => Return default
               end
  | _ => Raise AttributeError
  end.

(** [x in story] / [story[x]] hash the key first: lists and dicts are
    unhashable; any other non-string is simply not among the string keys. *)
Definition py_in_story (x : value) (story : dict) : result bool :=
  match x with
  | VStr k => Return (has_key k story)
  | VList _ | VDict _ => Raise TypeError
  | _ => Return false
  end.

(** Iterating a value, as a [for] loop does. *)
Definition py_iter (v : value) : result (list value) :=
  match v with
  | VList l => Return l
  | VStr s => Return (map (fun c => VStr [c]) s)
  | VDict d => Return (map (fun kv => VStr (fst kv)) d)
  | _ => Raise TypeError
  end.

(** [len(v)] *)
Definition py_len (v : value) : result nat :=
  match v with
  | VList l => Return (length l)
  | VStr s => Return (length s)
  | VDict d => Return (length d)
  | _ => Raise TypeError
  end.

(** [v[i]] for a small literal index [i]. *)
Definition py_index (v : value) (i : nat) : result value :=
  match v with
  | VList l => match nth_error l i with
               | Some x => Return x
               | None => Raise IndexError
               end
  | VStr s => match nth_error s i with
              | Some c => Return (VStr [c])
              | None => Raise IndexError
              end
  | VDict _ => Raise (KeyError (VInt (Z.of_nat i)))
  | _ => Raise TypeError
  end.

(** [a + b] where [b] is a string: defined on strings only. *)
Definition py_add_str (a : value) (b : str) : result str :=
  match a with
  | VStr s => Return (s ++ b)
  | _ => Raise TypeError
  end.

(** [str.strip()]: the white space of [str.isspace] at both ends. *)
Definition is_space (c : char) : bool :=
  ((9 <=? c) && (c <=? 13) || (28 <=? c) && (c <=? 32) || (c =? 133)
   || (c =? 160) || (c =? 5760) || (8192 <=? c) && (c <=? 8202)
   || (c =? 8232) || (c =? 8233) || (c =? 8239) || (c =? 8287)
   || (c =? 12288))%N.

Fixpoint lstrip (s : str) : str :=
  match s with
  | c :: s' => if is_space c then lstrip s' else s
  | [] => []
  end.

Definition strip (s : str) : str := rev (lstrip (rev (lstrip s))).

(* ================================================================== *)
(** ** The [json] decoder

    [json.loads] is library code; the script's behaviour on concrete inputs
    depends on it, so its grammar is modelled here, as the scanner of CPython
    implements it: white space, the literals
    [null], [true], [false], [NaN], [Infinity], [-Infinity], numbers (an
    [int] unless a fraction or an exponent is present), strings in strict
    mode with their escapes and surrogate pairs, arrays and objects (a
    repeated key keeps its first place and its last value).  The
    interpreter's resource limits (recursion depth, digits of an [int]) are
    not modelled. *)

Module Json.

Local Open Scope N_scope.

Definition is_ws (c : char) : bool :=
  (c =? 32) || (c =? 9) || (c =? 10) || (c =? 13).

Fixpoint skip_ws (s : str) : str :=
  match s with
  | c :: r => if is_ws c then skip_ws r else s
  | [] => []
  end.

Definition is_digit (c : char) : bool := (48 <=? c) && (c <=? 57).

Definition hex_digit (c : char) : option N :=
  if is_digit c then Some (c - 48)
  else if (97 <=? c) && (c <=? 102) then Some (c - 87)
  else if (65 <=? c) && (c <=? 70) then Some (c - 55)
  else None.

Definition hex4 (a b c d : char) : option N :=
  match hex_digit a, hex_digit b, hex_digit c, hex_digit d with
  | Some x, Some y, Some z, Some w => Some (((x * 16 + y) * 16 + z) * 16 + w)
  | _, _, _, _ => None
  end.

Definition is_high_surrogate (u : N) : bool := (55296 <=? u) && (u <=? 56319).
Definition is_low_surrogate (u : N) : bool := (56320 <=? u) && (u <=? 57343).

Definition join_surrogates (h l : N) : N :=
  65536 + ((h - 55296) * 1024 + (l - 56320)).

(** The character a one-letter escape stands for. *)
Definition simple_escape (c : char) : option char :=
  if c =? 34 then Some 34            (* quotation mark *)
  else if c =? 92 then Some 92       (* backslash *)
  else if c =? 47 then Some 47       (* slash *)
  else if c =? 98 then Some 8        (* b: backspace *)
  else if c =? 102 then Some 12      (* f: form feed *)
  else if c =? 110 then Some 10      (* n: line feed *)
  else if c =? 114 then Some 13      (* r: carriage return *)
  else if c =? 116 then Some 9       (* t: tab *)
  else None.

Definition prepend (pre : str) (r : option (str * str)) : option (str * str) :=
  match r with
  | Some (x, rest) => Some (pre ++ x, rest)
  | None => None
  end.

(** The body of a string, after its opening quote: the decoded characters
    and the input left after the closing quote.  [pending] is a high
    surrogate read from the previous [\u] escape, waiting for its low half;
    without one it stays in the string as it is. *)
Fixpoint scanstring (pending : option N) (s : str) : option (str * str) :=
  let held := match pending with Some h => [h] | None => [] end in
  match s with
  | [] => None
  | c :: r =>
      if c =? 34 then Some (held, r)
      else if c =? 92 then
        match r with
        | [] => None
        | e :: r1 =>
            if e =? 117 then
              match r1 with
              | a :: b :: c' :: d :: r2 =>
                  match hex4 a b c' d with
                  | None => None
                  | Some u =>
                      match pending with
                      | Some h =>
                          if is_low_surrogate u
                          then prepend [join_surrogates h u] (scanstring None r2)
                          else if is_high_surrogate u
                          then prepend [h] (scanstring (Some u) r2)
                          else prepend [h; u] (scanstring None r2)
                      | None =>
                          if is_high_surrogate u
                          then scanstring (Some u) r2
                          else prepend [u] (scanstring None r2)
                      end
                  end
              | _ => None
              end
            else
              match simple_escape e with
              | Some x => prepend (held ++ [x]) (scanstring None r1)
              | None => None
              end
        end
      else if c <? 32 then None
      else prepend (held ++ [c]) (scanstring None r)
  end.

(** The longest run of digits at the head of [s], and what follows. *)
Fixpoint span_digits (s : str) : str * str :=
  match s with
  | c :: r => if is_digit c
              then let (ds, rest) := span_digits r in (c :: ds, rest)
              else ([], s)
  | [] => ([], [])
  end.

Definition digits_value (ds : str) : Z :=
  fold_left (fun acc c => (acc * 10 + Z.of_N (c - 48))%Z) ds 0%Z.

(** The fraction, a dot and at least one digit, when present. *)
Definition scan_frac (s : str) : option str * str :=
  match s with
  | c :: d :: r =>
      if (c =? 46) && is_digit d
      then let (ds, rest) := span_digits (d :: r) in (Some ds, rest)
      else (None, s)
  | _ => (None, s)
  end.

(** The exponent, [e] or [E], an optional sign and at least one digit, when
    present. *)
Definition scan_exp (s : str) : option Z * str :=
  match s with
  | e :: r =>
      if (e =? 101) || (e =? 69) then
        match r with
        | sg :: r' =>
            if is_digit sg then
              let (ds, rest) := span_digits r in (Some (digits_value ds), rest)
            else if (sg =? 45) || (sg =? 43) then
              match r' with
              | d :: _ =>
                  if is_digit d then
                    let (ds, rest) := span_digits r' in
                    (Some (if sg =? 45 then (- digits_value ds)%Z
                           else digits_value ds), rest)
                  else (None, s)
              | [] => (None, s)
              end
            else (None, s)
        | [] => (None, s)
        end
      else (None, s)
  | [] => (None, s)
  end.

(** The integer part: a zero, or a run of digits that does not start with
    a zero. *)
Definition scan_int (s : str) : option (str * str) :=
  match s with
  | d :: r =>
      if d =? 48 then Some ([d], r)
      else if is_digit d then Some (span_digits s)
      else None
  | [] => None
  end.

(** A number at the head of [s]: an optional minus sign, the integer part,
    then an optional fraction and an optional exponent.  It is an [int] when
    it has neither fraction nor exponent, else a [float]. *)
Definition match_number (s : str) : option (value * str) :=
  let (neg, s1) := match s with
                   | c :: r => if c =? 45 then (true, r) else (false, s)
                   | [] => (false, s)
                   end in
  match scan_int s1 with
  | None => None
  | Some (ds, r1) =>
      let (frac, r2) := scan_frac r1 in
      let (ex, r3) := scan_exp r2 in
      let sign (z : Z) := if neg then (- z)%Z else z in
      match frac, ex with
      | None, None => Some (VInt (sign (digits_value ds)), r3)
      | _, _ =>
          let fs := match frac with Some f => f | None => [] end in
          let e := match ex with Some e => e | None => 0%Z end in
          Some (VFloat (FDec (sign (digits_value (ds ++ fs)))
                             (e - Z.of_nat (length fs))), r3)
      end
  end.

(** What one decoding step yields: a result, a syntax error, or too little
    fuel for the recursion ([loads_fuel] shows the fuel [json_loads]
    gives is always enough). *)
Inductive scan (A : Type) :=
| Scanned (a : A)
| Invalid
| Exhausted.
Arguments Invalid {A}.
Arguments Exhausted {A}.

Definition strip_prefix (p s : str) : option str :=
  if is_prefix p s then Some (skipn (length p) s) else None.

Definition scan_constant (s : str) : option (value * str) :=
  match strip_prefix (lit "null") s with Some r => Some (VNone, r) | None =>
  match strip_prefix (lit "true") s with Some r => Some (VBool true, r) | None =>
  match strip_prefix (lit "false") s with Some r => Some (VBool false, r) | None =>
  match match_number s with Some vr => Some vr | None =>
  match strip_prefix (lit "NaN") s with Some r => Some (VFloat FNaN, r) | None =>
  match strip_prefix (lit "Infinity") s with
  | Some r => Some (VFloat (FInf false), r) | None =>
  match strip_prefix (lit "-Infinity") s with
  | Some r => Some (VFloat (FInf true), r) | None => None
  end end end end end end end.

(** The input after the character [c], when [s] starts with it. *)
Definition expect (c : char) (s : str) : option str :=
  match s with
  | x :: r => if x =? c then Some r else None
  | [] => None
  end.

(** [scan_once]: one value at the head of [s].  [scan_members] reads the
    pairs of an object from a key on, [scan_elems] the items of an array. *)
Fixpoint scan_once (fuel : nat) (s : str) : scan (value * str) :=
  match fuel with
  | O => Exhausted
  | S f =>
      match s with
      | [] => Invalid
      | c :: r =>
          if c =? 34 then
            match scanstring None r with
            | Some (x, rest) => Scanned (VStr x, rest)
            | None => Invalid
            end
          else if c =? 123 then
            match expect 125 (skip_ws r) with
            | Some rest => Scanned (VDict [], rest)
            | None => scan_members f [] (skip_ws r)
            end
          else if c =? 91 then
            match expect 93 (skip_ws r) with
            | Some rest => Scanned (VList [], rest)
            | None => scan_elems f [] (skip_ws r)
            end
          else
            match scan_constant s with
            | Some vr => Scanned vr
            | None => Invalid
            end
      end
  end

with scan_members (fuel : nat) (acc : dict) (s : str) : scan (value * str) :=
  match fuel with
  | O => Exhausted
  | S f =>
      match expect 34 s with
      | None => Invalid
      | Some r =>
          match scanstring None r with
          | None => Invalid
          | Some (k, r1) =>
              match expect 58 (skip_ws r1) with
              | None => Invalid
              | Some r2 =>
                  match scan_once f (skip_ws r2) with
                  | Scanned (v, r3) =>
                      match expect 125 (skip_ws r3) with
                      | Some r4 => Scanned (VDict (dict_set acc k v), r4)
                      | None =>
                          match expect 44 (skip_ws r3) with
                          | Some r4 =>
                              scan_members f (dict_set acc k v) (skip_ws r4)
                          | None => Invalid
                          end
                      end
                  | Invalid => Invalid
                  | Exhausted => Exhausted
                  end
              end
          end
      end
  end

with scan_elems (fuel : nat) (acc : list value) (s : str) : scan (value * str) :=
  match fuel with
  | O => Exhausted
  | S f =>
      match scan_once f s with
      | Scanned (v, r1) =>
          match expect 93 (skip_ws r1) with
          | Some r2 => Scanned (VList (acc ++ [v]), r2)
          | None =>
              match expect 44 (skip_ws r1) with
              | Some r2 => scan_elems f (acc ++ [v]) (skip_ws r2)
              | None => Invalid
              end
          end
      | Invalid => Invalid
      | Exhausted => Exhausted
      end
  end.

(** [json.loads(s)]: [None] stands for [JSONDecodeError]. *)
Definition loads (s : str) : option value :=
  match scan_once (2 * length s + 2) (skip_ws s) with
  | Scanned (v, r) => match skip_ws r with
                      | [] => Some v
                      | _ => None
                      end
  | _ => None
  end.

End Json.

Definition json_loads := Json.loads.


(* ================================================================== *)
(** ** Validation: [load_story] *)

(** What the script sees of [STORY_PATH]: whether the file exists, and what
    [read_text] gives (its content, or the exception it raises). *)
Record source := {
  path_exists : bool;
  read_text : result str
}.

(** A [for] loop whose body may raise. *)
Fixpoint for_each {A} (body : A -> result unit) (l : list A) : result unit :=
  match l with
  | [] => Return tt
  | x :: l' => body x ;;; for_each body l'
  end.

(** First loop: every node has a string ["text"], and ["options"], when
    present, is a list. *)
Definition check_shape (item : str * value) : result unit :=
  let (node_id, node) := item in
  has_text <- py_contains (lit "text") node ;;
  bad_text <- (if negb has_text then Return true
               else t <- py_getitem node (lit "text") ;;
                    Return (negb (is_str t))) ;;
  if bad_text then Raise (ValueError (NodeTextNotString node_id)) else
  has_options <- py_contains (lit "options") node ;;
  bad_options <- (if has_options
                  then o <- py_getitem node (lit "options") ;;
                       Return (negb (is_list o))
                  else Return false) ;;
  if bad_options then Raise (ValueError (OptionsNotList node_id))
  else Return tt.

(** Second loop: [if nxt and nxt not in story] for every authored option. *)
Definition check_option (story : dict) (node_id : str) (opt : value)
  : result unit :=
  nxt <- py_get opt (lit "next") VNone ;;
  dangling <- (if truthy nxt
               then known <- py_in_story nxt story ;; Return (negb known)
               else Return false) ;;
  if dangling then Raise (ValueError (OptionUnknownNode node_id nxt))
  else Return tt.

Definition check_options (story : dict) (item : str * value) : result unit :=
  let (node_id, node) := item in
  opts <- py_get node (lit "options") (VList []) ;;
  items <- py_iter opts ;;
  for_each (check_option story node_id) items.

(** Third loop, the body of [for t in nm]. *)
Definition check_next_map_entry (story : dict) (node_id : str) (t : value)
  : result unit :=
  if negb (is_str t) then Raise (ValueError (NextMapEntryNotString node_id))
  else
    known <- py_in_story t story ;;
    if negb known then Raise (ValueError (NextMapUnknownNode node_id t))
    else Return tt.

(** Third loop: a hinted node has a route, [next_map] is a list of known
    strings, and [next] is known. *)
Definition check_routes (story : dict) (item : str * value) : result unit :=
  let (node_id, node) := item in
  opts <- py_get node (lit "options") VNone ;;
  let has_opts := truthy opts in
  hint <- py_get node (lit "next_hint") VNone ;;
  let has_hint := truthy hint in
  nm <- py_get node (lit "next_map") VNone ;;
  nxt <- py_get node (lit "next") VNone ;;
  (if negb has_opts && has_hint
   then if negb (truthy nm) && negb (truthy nxt)
        then Raise (ValueError (HintWithoutRoute node_id))
        else Return tt
   else Return tt) ;;;
  (if negb (is_none nm)
   then match nm with
        | VList l => for_each (check_next_map_entry story node_id) l
        | _ => Raise (ValueError (NextMapNotList node_id))
        end
   else Return tt) ;;;
  (if negb (is_none nxt)
   then known <- py_in_story nxt story ;;
        if negb known then Raise (ValueError (NextUnknownNode node_id nxt))
        else Return tt
   else Return tt).

(** The three loops, on the decoded top-level object. *)
Definition validate (story : dict) : result unit :=
  for_each check_shape story ;;;
  for_each (check_options story) story ;;;
  for_each (check_routes story) story.

Definition load_story (src : source) : result dict :=
  if negb (path_exists src) then Raise (FileNotFoundError StoryFileNotFound)
  else
    text <- read_text src ;;
    match json_loads text with
    | None => Raise (ValueError NotValidJSON)
    | Some (VDict story) => validate story ;;; Return story
    | Some _ => Raise (ValueError TopLevelNotObject)
    end.

(** A readable story file with the given content, and a missing one. *)
Definition file (text : str) : source :=
  {| path_exists := true; read_text := Return text |}.

Definition missing_file : source :=
  {| path_exists := false; read_text := Raise (FileNotFoundError StoryFileNotFound) |}.

(** *** What the validator establishes

    The conditions the three loops check, as predicates on a decoded story;
    the properties below relate them to [load_story]. *)

(** A value that can be looked up in a dict. *)
Definition hashable (v : value) : bool :=
  match v with
  | VList _ | VDict _ => false
  | _ => true
  end.

(** [v] is a key of the story. *)
Definition known (story : dict) (v : value) : bool :=
  match v with
  | VStr k => has_key k story
  | _ => false
  end.

(** A story made of objects: every node is an object, the entries of its
    options are objects, and what stands in a reference position
    ([options[].next], [next]) is hashable. *)
Definition typed_option (opt : value) : bool :=
  match opt with
  | VDict o => match lookup (lit "next") o with
               | Some v => hashable v
               | None => true
               end
  | _ => false
  end.

Definition typed_node (node : value) : bool :=
  match node with
  | VDict fields =>
      match lookup (lit "options") fields with
      | Some (VList l) => forallb typed_option l
      | _ => true
      end
      && match lookup (lit "next") fields with
         | Some v => hashable v
         | None => true
         end
  | _ => false
  end.

Definition typed_story (story : dict) : bool :=
  forallb (fun item => typed_node (snd item)) story.

(** The references of a node that the router follows: [next_map], when
    given, is a list of keys of the story, and [next], when given, is a
    key of the story. *)
Definition refs_ok (story : dict) (node : value) : bool :=
  match node with
  | VDict fields =>
      match lookup (lit "next_map") fields with
      | None | Some VNone => true
      | Some (VList l) => forallb (known story) l
      | Some _ => false
      end
      && match lookup (lit "next") fields with
         | None | Some VNone => true
         | Some v => known story v
         end
  | _ => false
  end.

(** An authored option as the second loop leaves it: an object whose
    [next] is absent, falsy, or a key of the story. *)
Definition option_ok (story : dict) (opt : value) : bool :=
  match opt with
  | VDict o => match lookup (lit "next") o with
               | Some v => negb (truthy v) || known story v
               | None => true
               end
  | _ => false
  end.

(** A node as the three loops leave it. *)
Definition valid_node (story : dict) (node : value) : bool :=
  match node with
  | VDict fields =>
      match lookup (lit "text") fields with
      | Some (VStr _) => true
      | _ => false
      end
      && match lookup (lit "options") fields with
         | None => true
         | Some (VList l) => forallb (option_ok story) l
         | Some _ => false
         end
      && (let opts := match lookup (lit "options") fields with
                      | Some v => v | None => VNone end in
          let hint := match lookup (lit "next_hint") fields with
                      | Some v => v | None => VNone end in
          let nm := match lookup (lit "next_map") fields with
                    | Some v => v | None => VNone end in
          let nxt := match lookup (lit "next") fields with
                     | Some v => v | None => VNone end in
          negb (negb (truthy opts) && truthy hint)
          || truthy nm || truthy nxt)
      && refs_ok story node
  | _ => false
  end.

(* ================================================================== *)
(** ** The generation parser: [parse_scene_and_options_json] *)

(** [re.search(r'\{.*\}', text, re.DOTALL)]: the match starts at the first
    opening brace and, the star being greedy and the dot matching every
    character, ends at the last closing brace after it. *)
Fixpoint from_first_open (s : str) : option str :=
  match s with
  | [] => None
  | c :: r => if (c =? 123)%N then Some r else from_first_open r
  end.

Fixpoint upto_last_close (s : str) : option str :=
  match s with
  | [] => None
  | c :: r =>
      match upto_last_close r with
      | Some p => Some (c :: p)
      | None => if (c =? 125)%N then Some [c] else None
      end
  end.

Definition search_object (text : str) : option str :=
  match from_first_open text with
  | Some r => match upto_last_close r with
              | Some p => Some (123%N :: p)
              | None => None
              end
  | None => None
  end.

(** The strings of a list whose elements are all strings. *)
Fixpoint all_strs (l : list value) : option (list str) :=
  match l with
  | [] => Some []
  | VStr s :: l' => match all_strs l' with
                    | Some ss => Some (s :: ss)
                    | None => None
                    end
  | _ :: _ => None
  end.

(** The [try] block: strict decoding of the whole text, then of the match
    of the regular expression; [None] where the function gives up and
    returns the empty scene and no options. *)
Definition decode_with_recovery (text : str) : option value :=
  match json_loads text with
  | Some data => Some data
  | None => match search_object text with
            | Some m => json_loads m
            | None => None
            end
  end.

(** What follows the [try] block, on the decoded [data]. *)
Definition scene_and_options (data : value) : result (str * list str) :=
  scene <- py_get data (lit "scene") (VStr []) ;;
  options <- py_get data (lit "options") (VList []) ;;
  let scene := match scene with VStr s => s | _ => [] end in
  let options := match options with
                 | VList l => match all_strs l with
                              | Some ss => ss
                              | None => []
                              end
                 | _ => []
                 end in
  let options := firstn 2 options in
  Return (strip scene, map strip options).

Definition parse_scene_and_options_json (text : str)
  : result (str * list str) :=
  match decode_with_recovery text with
  | None => Return ([], [])
  | Some data => scene_and_options data
  end.

(** A string with no white space at either end. *)
Definition starts_clean (s : str) : Prop :=
  match s with
  | c :: _ => is_space c = false
  | [] => True
  end.

Definition trimmed (s : str) : Prop :=
  starts_clean s /\ starts_clean (rev s).

(** [out] is [raw] without the white space at its two ends: what was cut
    off before it and after it is white space only, and nothing more could
    be cut. *)
Definition trimming_of (raw out : str) : Prop :=
  exists pre post,
    raw = pre ++ out ++ post
    /\ forallb is_space pre = true
    /\ forallb is_space post = true
    /\ trimmed out.

(* ================================================================== *)
(** ** The window: widgets, callbacks and the scene resolver *)

(** A button's [command]: the closure
    [lambda: show_node(opts[idx]["next"], ...)], which looks its target up
    when the button is pressed. *)
Inductive command :=
| NoCommand
| Navigate (opts : value) (idx : nat).

Record button := {
  btn_text : value;
  btn_command : command;
  btn_packed : bool
}.

(** The presented state: the text box, the status line, the two buttons, and
    the error dialogs shown so far (title and exception). *)
Record ui := {
  box_text : value;
  status_text : str;
  btn1 : button;
  btn2 : button;
  dialogs : list (str * exn)
}.

(** Code that updates the widgets and may raise: the widget state is
    threaded through, and what was done before an exception stays done. *)
Definition M (A : Type) := ui -> ui * result A.

Definition ret {A} (a : A) : M A := fun u => (u, Return a).

Definition lift {A} (r : result A) : M A := fun u => (u, r).

Definition modify (f : ui -> ui) : M unit := fun u => (f u, Return tt).

Definition bindM {A B} (m : M A) (k : A -> M B) : M B :=
  fun u => match m u with
           | (u', Return a) => k a u'
           | (u', Raise e) => (u', Raise e)
           end.

Notation "x <~ e ;; k" := (bindM e (fun x => k))
  (at level 61, e at next level, right associativity).
Notation "e ;> k" := (bindM e (fun _ => k))
  (at level 61, right associativity).

Definition set_box (t : value) (u : ui) : ui :=
  {| box_text := t; status_text := status_text u;
     btn1 := btn1 u; btn2 := btn2 u; dialogs := dialogs u |}.

Definition set_status (t : str) (u : ui) : ui :=
  {| box_text := box_text u; status_text := t;
     btn1 := btn1 u; btn2 := btn2 u; dialogs := dialogs u |}.

Definition set_btn1 (f : button -> button) (u : ui) : ui :=
  {| box_text := box_text u; status_text := status_text u;
     btn1 := f (btn1 u); btn2 := btn2 u; dialogs := dialogs u |}.

Definition set_btn2 (f : button -> button) (u : ui) : ui :=
  {| box_text := box_text u; status_text := status_text u;
     btn1 := btn1 u; btn2 := f (btn2 u); dialogs := dialogs u |}.

(** [messagebox.showerror(title, str(e))] *)
Definition showerror (title : str) (e : exn) (u : ui) : ui :=
  {| box_text := box_text u; status_text := status_text u;
     btn1 := btn1 u; btn2 := btn2 u;
     dialogs := dialogs u ++ [(title, e)] |}.

(** [btn.config(text=..., command=...)] followed by [btn.pack(...)] *)
Definition config_pack (text : value) (c : command) (b : button) : button :=
  {| btn_text := text; btn_command := c; btn_packed := true |}.

(** [btn.pack_forget()] *)
Definition pack_forget (b : button) : button :=
  {| btn_text := btn_text b; btn_command := btn_command b;
     btn_packed := false |}.

Definition render_text (t : value) : M unit := modify (set_box t).

Definition set_buttons (opts : value) : M unit :=
  n <~ lift (py_len opts) ;;
  (if 1 <=? n
   then o <~ lift (py_index opts 0) ;;
        label <~ lift (py_getitem o (lit "label")) ;;
        modify (set_btn1 (config_pack label (Navigate opts 0)))
   else modify (set_btn1 pack_forget)) ;>
  (if 2 <=? n
   then o <~ lift (py_index opts 1) ;;
        label <~ lift (py_getitem o (lit "label")) ;;
        modify (set_btn2 (config_pack label (Navigate opts 1)))
   else modify (set_btn2 pack_forget)).

(** The background thread [show_node] starts for a hinted node: the
    variables its closure [work] captures. *)
Record job := {
  job_node_id : str;
  job_node : value;
  job_hint : value
}.

(** [story[node_id]], with the key it was found under. *)
Definition story_getitem (story : dict) (node_id : value)
  : result (str * value) :=
  match node_id with
  | VStr k => match lookup k story with
              | Some node => Return (k, node)
              | None => Raise (KeyError node_id)
              end
  | VList _ | VDict _ => Raise TypeError
  | _ => Raise (KeyError node_id)
  end.

(** The text appended to a hinted node while its scene is generated; the
    character before the closing parenthesis is U+2026. *)
Definition generating : str :=
  [10; 10]%N ++ lit "(Generating" ++ [8230%N] ++ lit ")".

(** [show_node], up to the start of the thread: [None] when the node was
    resolved on the spot, [Some job] when generation was started. *)
Definition show_node (node_id : value) (story : dict) : M (option job) :=
  found <~ lift (story_getitem story node_id) ;;
  let (nid, node) := found : str * value in
  modify (set_status (lit "Node: " ++ nid)) ;>
  opts <~ lift (py_get node (lit "options") (VList [])) ;;
  if truthy opts then
    t <~ lift (py_getitem node (lit "text")) ;;
    render_text t ;>
    set_buttons opts ;>
    ret None
  else
    hint <~ lift (py_get node (lit "next_hint") (VStr [])) ;;
    if negb (truthy hint) then
      t <~ lift (py_getitem node (lit "text")) ;;
      render_text t ;>
      set_buttons (VList []) ;>
      ret None
    else
      t <~ lift (py_getitem node (lit "text")) ;;
      g <~ lift (py_add_str t generating) ;;
      render_text (VStr g) ;>
      modify (set_btn1 pack_forget) ;>
      modify (set_btn2 pack_forget) ;>
      ret (Some {| job_node_id := nid; job_node := node; job_hint := hint |}).

(** A generated choice: [{"label": label, "next": target}]. *)
Definition choice (label target : str) : value :=
  VDict [(lit "label", VStr label); (lit "next", VStr target)].

Fixpoint strs_of (l : list value) : list str :=
  match l with
  | [] => []
  | VStr s :: l' => s :: strs_of l'
  | _ :: l' => strs_of l'
  end.

(** The [targets] list of [work]. *)
Definition targets_of (node : value) (node_id : str) (ai_opts : list str)
  : result (list str) :=
  has_map <- py_contains (lit "next_map") node ;;
  use_map <- (if has_map
              then nm <- py_getitem node (lit "next_map") ;;
                   Return (is_list nm && truthy nm)
              else Return false) ;;
  if use_map then
    nm <- py_getitem node (lit "next_map") ;;
    entries <- py_iter nm ;;
    Return (strs_of entries)
  else
    nxt <- py_get node (lit "next") VNone ;;
    match nxt with
    | VStr target => Return (repeat target (Nat.max 1 (length ai_opts)))
    | _ => Return (repeat node_id (Nat.max 1 (length ai_opts)))
    end.

(** The loop over [enumerate(ai_opts)] that builds [mapped], from index
    [idx] on. *)
Fixpoint map_options (story : dict) (targets : list str) (idx : nat)
    (ai_opts : list str) : list value :=
  match ai_opts with
  | [] => []
  | label :: rest =>
      match nth_error targets idx with
      | Some t =>
          if has_key t story
          then choice label t :: map_options story targets (S idx) rest
          else map_options story targets (S idx) rest
      | None => map_options story targets (S idx) rest
      end
  end.

Definition debug_no_options : str :=
  [10; 10]%N ++ lit "[Debug] No options parsed from model output.".
Definition debug_empty_map : str := lit "[Debug] Node has empty next_map.".
Definition debug_loopback : str :=
  lit "[Debug] Node has no next/next_map; using loopback.".

(** The closure [update] that [work] hands to the main loop on success. *)
Definition update (node : value) (node_id : str) (scene : str)
    (ai_opts : list str) (mapped : list value) : M unit :=
  empty_map <~ lift (has_map <- py_contains (lit "next_map") node ;;
                     if has_map
                     then nm <- py_get node (lit "next_map") VNone ;;
                          Return (negb (truthy nm))
                     else Return false) ;;
  no_route <~ lift (has_next <- py_contains (lit "next") node ;;
                    if has_next then Return false
                    else has_map <- py_contains (lit "next_map") node ;;
                         Return (negb has_map)) ;;
  let debug_lines :=
    (match ai_opts with [] => [debug_no_options] | _ => [] end)
    ++ (if empty_map then [debug_empty_map] else [])
    ++ (if no_route then [debug_loopback] else []) in
  t <~ lift (py_getitem node (lit "text")) ;;
  t1 <~ lift (py_add_str t [10; 10]%N) ;;
  render_text (VStr (t1 ++ scene
                     ++ concat (map (fun d => 10%N :: d) debug_lines))) ;>
  match mapped with
  | _ :: _ => set_buttons (VList (firstn 2 mapped))
  | [] =>
      match ai_opts with
      | first :: more =>
          set_buttons (VList (choice first node_id
                              :: match more with
                                 | second :: _ => [choice second node_id]
                                 | [] => []
                                 end))
      | [] => set_buttons (VList [choice (lit "Continue") node_id])
      end
  end.

(** The callback the [except] clause of [work] posts:
    [lambda: messagebox.showerror("AI Error", str(e))].  The lambda reads
    the variable [e] of [work] when the main loop runs it, and Python
    unbinds the name an [except ... as e] clause binds when the clause
    ends: [bound] is what the variable holds at that time. *)
Definition error_callback (bound : option exn) : M unit :=
  match bound with
  | Some e => modify (showerror (lit "AI Error") e)
  | None => lift (Raise NameError)
  end.

(** The thread body [work], as the callback it posts with
    [box.after(0, ...)]: [update] when everything in the [try] block
    succeeded, [error_callback] when anything in it raised.
    [ai_bridge_json] is the call to the text service: its result for the
    node's text and hint is the raw output, or the exception it raised.
    [main_loop_first] tells how the two threads interleave after a failure:
    whether the main loop runs the posted callback before the thread has
    left its [except] clause (the thread leaves it right after posting). *)
Definition work (ai_bridge_json : value -> value -> result str)
    (main_loop_first : bool) (story : dict) (j : job) : M unit :=
  let node := job_node j in
  let node_id := job_node_id j in
  let attempt : result (M unit) :=
    t <- py_getitem node (lit "text") ;;
    out <- ai_bridge_json t (job_hint j) ;;
    parsed <- parse_scene_and_options_json out ;;
    let (scene, ai_opts) := parsed : str * list str in
    targets <- targets_of node node_id ai_opts ;;
    let mapped := map_options story targets 0 ai_opts in
    Return (update node node_id scene ai_opts mapped) in
  match attempt with
  | Return callback => callback
  | Raise e => error_callback (if main_loop_first then Some e else None)
  end.

(** The routing policy in the words of the specification: with a non-empty
    list [next_map], the i-th label goes to [next_map[i]] and the labels
    beyond its length are dropped; else, with [next] set, every label goes
    to [next]; else every label goes back to the node itself. *)
Definition routing_policy (node : value) (node_id : str) (labels : list str)
  : list (str * value) :=
  match node with
  | VDict fields =>
      match lookup (lit "next_map") fields with
      | Some (VList (x :: l)) => combine labels (x :: l)
      | _ =>
          match lookup (lit "next") fields with
          | Some nxt =>
              if is_none nxt
              then map (fun label => (label, VStr node_id)) labels
              else map (fun label => (label, nxt)) labels
          | None => map (fun label => (label, VStr node_id)) labels
          end
      end
  | _ => []
  end.

(** How a list of choices, label and target, appears on the buttons. *)
Definition on_screen (choices : list (str * value))
  : list (value * option (result value)) :=
  map (fun c => (VStr (fst c), Some (Return (snd c)))) choices.

(** The widgets as [build_ui] creates them. *)
Definition initial_ui : ui :=
  {| box_text := VStr [];
     status_text := [];
     btn1 := {| btn_text := VStr (lit "Option 1");
                btn_command := NoCommand; btn_packed := false |};
     btn2 := {| btn_text := VStr (lit "Option 2");
                btn_command := NoCommand; btn_packed := false |};
     dialogs := [] |}.

(** [build_ui]: the window after start-up with the loaded story and the
    thread started for the entry node, if any; or the exception that ends
    the program. *)
Definition build_ui (src : source) : ui * result (dict * option job) :=
  match load_story src with
  | Raise e =>
      (showerror (lit "Story Load Error") e initial_ui, Raise (SystemExit 1))
  | Return story =>
      (started <~ show_node (VStr (lit "start")) story ;;
       ret (story, started)) initial_ui
  end.

(** The node a command leads to: [opts[idx]["next"]], evaluated when the
    button is pressed; a button without a command leads nowhere. *)
Definition target_of (c : command) : option (result value) :=
  match c with
  | NoCommand => None
  | Navigate opts idx =>
      Some (o <- py_index opts idx ;; py_getitem o (lit "next"))
  end.

(** Pressing a button runs its command. *)
Definition press (b : button) (story : dict) : M (option job) :=
  match target_of (btn_command b) with
  | None => ret None
  | Some lookup_target =>
      target <~ lift lookup_target ;; show_node target story
  end.

(** The choices on screen: for each packed button, its label and the node
    pressing it leads to. *)
Definition routes (u : ui) : list (value * option (result value)) :=
  (if btn_packed (btn1 u)
   then [(btn_text (btn1 u), target_of (btn_command (btn1 u)))] else [])
  ++ (if btn_packed (btn2 u)
      then [(btn_text (btn2 u), target_of (btn_command (btn2 u)))] else []).


(* ================================================================== *)
(** ** Example stories *)




(** A terminal node. *)
Definition the_end_fields : dict :=
  [(lit "text", VStr (lit "The end."));
   (lit "options", VList []);
   (lit "next", VStr (lit "end"))].

Definition the_end : dict := [(lit "end", VDict the_end_fields)].

(** Hinted entry nodes: with a [next_map] of two targets, with a [next_map]
    of one target, with a [next] only, with no route at all, and with a
    [next_map] that names a node the story does not have. *)
Definition hinted (route : dict) : value :=
  VDict ([(lit "text", VStr (lit "T")); (lit "next_hint", VStr (lit "h"))]
         ++ route).

Definition leaf (t : string) : value := VDict [(lit "text", VStr (lit t))].

Definition two_targets : dict :=
  [(lit "start",
    hinted [(lit "next_map", VList [VStr (lit "b"); VStr (lit "c")])]);
   (lit "b", leaf "B"); (lit "c", leaf "C")].

Definition one_target : dict :=
  [(lit "start",
    hinted [(lit "next_map", VList [VStr (lit "b")]);
            (lit "next", VStr (lit "z"))]);
   (lit "b", leaf "B"); (lit "z", leaf "Z")].

Definition single_next : dict :=
  [(lit "start", hinted [(lit "next", VStr (lit "z"))]); (lit "z", leaf "Z")].

Definition no_route : dict := [(lit "start", hinted [])].

Definition lost_target : dict :=
  [(lit "start", hinted [(lit "next_map", VList [VStr (lit "gone")])])].

(** A story the loader accepts whose only option has neither label nor
    [next]. *)
Definition bare_option_fields : dict :=
  [(lit "text", VStr (lit "T")); (lit "options", VList [VDict []])].

Definition bare_option : dict := [(lit "start", VDict bare_option_fields)].

(** A node whose single option leads back to it. *)
Definition lone_choice : dict :=
  [(lit "a", VDict [(lit "text", VStr (lit "A"));
                    (lit "options",
                     VList [choice (lit "again") (lit "a")])])].

(** The thread [show_node] starts for the entry node of these stories. *)
Definition entry_job (story : dict) : job :=
  {| job_node_id := lit "start";
     job_node := match lookup (lit "start") story with
                 | Some node => node
                 | None => VNone
                 end;
     job_hint := VStr (lit "h") |}.

(** The window while that thread runs. *)
Definition pending (story : dict) : ui :=
  fst (show_node (VStr (lit "start")) story initial_ui).

(** A service that answers with a scene and two options whatever it is
    asked, one that answers garbage, and one that times out. *)
Definition answers_two (_ _ : value) : result str :=
  Return (quoted "{'scene':'S','options':['A','B']}").

Definition answers_garbage (_ _ : value) : result str :=
  Return (lit "garbage").

Definition times_out (_ _ : value) : result str :=
  Raise (ServiceError (lit "timed out")).

(* ================================================================== *)
(** * Properties *)

(** ** Strings and dictionaries *)

Lemma str_eqb_refl (a : str) : str_eqb a a = true.
Proof.
  induction a as [|x a IH]; simpl; [reflexivity|].
  now rewrite N.eqb_refl, IH.
Qed.

Lemma str_eqb_eq (a b : str) : str_eqb a b = true <-> a = b.
Proof.
  split; [|intros ->; apply str_eqb_refl].
  revert b; induction a as [|x a IH]; intros [|y b]; simpl;
    try discriminate; [reflexivity|].
  intros H; apply andb_true_iff in H as [Hx Hab].
  apply N.eqb_eq in Hx; subst; f_equal; auto.
Qed.

Lemma has_key_lookup (k : str) (d : dict) :
  has_key k d = true <-> exists v, lookup k d = Some v.
Proof.
  unfold has_key; destruct (lookup k d) as [v|]; split;
    try discriminate; eauto.
  intros [v H]; discriminate.
Qed.

Lemma lookup_In (k : str) (d : dict) (v : value) :
  lookup k d = Some v -> In (k, v) d.
Proof.
  induction d as [|[k' v'] d IH]; simpl; [discriminate|].
  destruct (str_eqb k k') eqn:E.
  - apply str_eqb_eq in E; subst; intros [= ->]; now left.
  - intros H; right; auto.
Qed.

(* ------------------------------------------------------------------ *)
(** ** The decoder always has fuel enough *)

Module JsonFacts.
Import Json.

Lemma skip_ws_length (s : str) : length (skip_ws s) <= length s.
Proof.
  induction s as [|c s IH]; simpl; [lia|].
  destruct (is_ws c); simpl; lia.
Qed.

Lemma prepend_Some pre r x rest :
  prepend pre r = Some (x, rest) ->
  exists y, r = Some (y, rest) /\ x = pre ++ y.
Proof.
  destruct r as [[y rest']|]; simpl; [|discriminate].
  intros [= <- <-]; eauto.
Qed.

(** A string consumes at least its closing quote. *)
Lemma scanstring_length (n : nat) :
  forall s pending x rest,
    length s <= n ->
    scanstring pending s = Some (x, rest) -> length rest < length s.
Proof.
  induction n as [|n IH]; intros s pending x rest Hn.
  - destruct s; simpl in *; [discriminate|lia].
  - destruct s as [|c r]; [discriminate|].
    simpl in Hn. cbn [scanstring].
    destruct (c =? 34)%N.
    { intros [= <- <-]; simpl; lia. }
    destruct (c =? 92)%N.
    + destruct r as [|e r1]; [discriminate|].
      destruct (e =? 117)%N.
      * destruct r1 as [|a [|b [|c' [|d r2]]]]; try discriminate.
        simpl in Hn.
        destruct (hex4 a b c' d) as [u|]; [|discriminate].
        assert (Hr2 : length r2 <= n) by lia.
        destruct pending as [h|].
        -- destruct (is_low_surrogate u); [|destruct (is_high_surrogate u)];
             intros H; apply prepend_Some in H as (y & H & _);
             apply IH in H; simpl; lia.
        -- destruct (is_high_surrogate u); intros H;
             [|apply prepend_Some in H as (y & H & _)];
             apply IH in H; simpl; lia.
      * destruct (simple_escape e); [|discriminate].
        intros H; apply prepend_Some in H as (y & H & _).
        apply IH in H; simpl in *; lia.
    + destruct (c <? 32)%N; [discriminate|].
      intros H; apply prepend_Some in H as (y & H & _).
      apply IH in H; simpl; lia.
Qed.

Lemma span_digits_length (s : str) :
  length (snd (span_digits s)) <= length s.
Proof.
  induction s as [|c s IH]; simpl; [lia|].
  destruct (is_digit c); simpl; [|lia].
  destruct (span_digits s); simpl in *; lia.
Qed.

Lemma expect_length c s r : expect c s = Some r -> length s = S (length r).
Proof.
  destruct s as [|x s]; simpl; [discriminate|].
  destruct (x =? c)%N; [|discriminate]. now intros [= ->].
Qed.

Lemma scan_frac_length (s : str) : length (snd (scan_frac s)) <= length s.
Proof.
  unfold scan_frac.
  destruct s as [|c [|d r]]; cbn [snd]; try lia.
  destruct ((c =? 46)%N && is_digit d); cbn [snd]; [|lia].
  pose proof (span_digits_length (d :: r)) as H.
  destruct (span_digits (d :: r)); cbn [snd length] in *; lia.
Qed.

Lemma scan_exp_length (s : str) : length (snd (scan_exp s)) <= length s.
Proof.
  unfold scan_exp.
  destruct s as [|e r]; cbn [snd]; [lia|].
  destruct ((e =? 101)%N || (e =? 69)%N); cbn [snd]; [|lia].
  destruct r as [|sg r']; cbn [snd]; [lia|].
  destruct (is_digit sg).
  - pose proof (span_digits_length (sg :: r')) as H.
    destruct (span_digits (sg :: r')); cbn [snd length] in *; lia.
  - destruct ((sg =? 45)%N || (sg =? 43)%N); cbn [snd]; [|lia].
    destruct r' as [|d r'']; cbn [snd]; [lia|].
    destruct (is_digit d) eqn:Ed; cbn [snd]; [|lia].
    pose proof (span_digits_length (d :: r'')) as H.
    destruct (span_digits (d :: r'')); cbn [snd length] in *; lia.
Qed.

Lemma scan_int_length s ds r :
  scan_int s = Some (ds, r) -> length r < length s.
Proof.
  unfold scan_int. destruct s as [|d s]; [discriminate|].
  destruct (d =? 48)%N; [intros [= <- <-]; simpl; lia|].
  destruct (is_digit d) eqn:Ed; [|discriminate].
  pose proof (span_digits_length (d :: s)) as H.
  destruct (span_digits (d :: s)) as [ds' r'] eqn:E.
  cbn [span_digits] in E. rewrite Ed in E.
  destruct (span_digits s) as [ds0 r0] eqn:E0.
  injection E as <- <-. intros [= <- <-].
  pose proof (span_digits_length s) as H0. rewrite E0 in H0.
  cbn [snd length] in *; lia.
Qed.

Lemma match_number_length s v r :
  match_number s = Some (v, r) -> length r < length s.
Proof.
  unfold match_number.
  set (p := match s with
            | c :: r0 => if (c =? 45)%N then (true, r0) else (false, s)
            | [] => (false, s)
            end).
  assert (Hp : length (snd p) <= length s).
  { subst p; destruct s as [|c r0]; simpl; [lia|].
    destruct (c =? 45)%N; simpl; lia. }
  destruct p as [neg s1]; simpl in Hp.
  destruct (scan_int s1) as [[ds r1]|] eqn:Ei; [|discriminate].
  apply scan_int_length in Ei.
  pose proof (scan_frac_length r1) as Hf.
  destruct (scan_frac r1) as [frac r2]; simpl in Hf.
  pose proof (scan_exp_length r2) as He.
  destruct (scan_exp r2) as [ex r3]; simpl in He.
  destruct frac, ex; intros [= <- <-]; lia.
Qed.

Lemma strip_prefix_length p s r :
  strip_prefix p s = Some r -> length r + length p <= length s \/ p = [].
Proof.
  unfold strip_prefix.
  destruct (is_prefix p s) eqn:E; [|discriminate].
  intros [= <-].
  destruct p as [|x p]; [now right|left].
  rewrite length_skipn.
  assert (length (x :: p) <= length s); [|lia].
  revert s E. generalize (x :: p) as q.
  induction q as [|y q IH]; intros s E; simpl; [lia|].
  destruct s as [|z s]; simpl in *; [discriminate|].
  apply andb_true_iff in E as [_ E]. apply IH in E. lia.
Qed.

Lemma scan_constant_length s v r :
  scan_constant s = Some (v, r) -> length r < length s.
Proof.
  unfold scan_constant.
  repeat match goal with
  | |- context [strip_prefix (lit ?w) s] =>
      let E := fresh "E" in
      destruct (strip_prefix (lit w) s) eqn:E;
      [apply strip_prefix_length in E as [E|E];
       [intros [= <- <-]; simpl in E; lia|discriminate]|]
  | |- context [match_number s] =>
      let E := fresh "E" in
      destruct (match_number s) as [[? ?]|] eqn:E;
      [apply match_number_length in E; intros [= <- <-]; lia|]
  end.
  discriminate.
Qed.

(** Whatever the fuel, a decoded value has consumed input. *)
Lemma scan_consumes (f : nat) :
  (forall s v r, scan_once f s = Scanned (v, r) -> length r < length s)
  /\ (forall acc s v r,
         scan_members f acc s = Scanned (v, r) -> length r < length s)
  /\ (forall acc s v r,
         scan_elems f acc s = Scanned (v, r) -> length r < length s).
Proof.
  induction f as [|f (IHo & IHm & IHe)]; [repeat split; discriminate|].
  repeat split.
  - intros s v r. cbn [scan_once].
    destruct s as [|c s]; [discriminate|].
    destruct (c =? 34)%N.
    { destruct (scanstring None s) as [[x rest]|] eqn:E; [|discriminate].
      intros [= <- <-]. apply (scanstring_length (n:=length s)) in E; simpl; lia. }
    destruct (c =? 123)%N.
    { pose proof (skip_ws_length s).
      destruct (expect 125%N (skip_ws s)) as [rest|] eqn:E.
      - apply expect_length in E. intros [= <- <-]; simpl; lia.
      - intros H'; apply IHm in H'. simpl; lia. }
    destruct (c =? 91)%N.
    { pose proof (skip_ws_length s).
      destruct (expect 93%N (skip_ws s)) as [rest|] eqn:E.
      - apply expect_length in E. intros [= <- <-]; simpl; lia.
      - intros H'; apply IHe in H'. simpl; lia. }
    destruct (scan_constant (c :: s)) as [[v' r']|] eqn:E; [|discriminate].
    intros [= <- <-]. now apply scan_constant_length in E.
  - intros acc s v r. cbn [scan_members].
    destruct (expect 34%N s) as [r0|] eqn:E0; [|discriminate].
    apply expect_length in E0.
    destruct (scanstring None r0) as [[k r1]|] eqn:E1; [|discriminate].
    apply (scanstring_length (n:=length r0)) in E1; [|lia].
    pose proof (skip_ws_length r1).
    destruct (expect 58%N (skip_ws r1)) as [r2|] eqn:E2; [|discriminate].
    apply expect_length in E2.
    pose proof (skip_ws_length r2).
    destruct (scan_once f (skip_ws r2)) as [[v' r3]| |] eqn:E3;
      try discriminate.
    apply IHo in E3.
    pose proof (skip_ws_length r3).
    destruct (expect 125%N (skip_ws r3)) as [r4|] eqn:E4.
    { apply expect_length in E4. intros [= <- <-]; lia. }
    destruct (expect 44%N (skip_ws r3)) as [r4|] eqn:E5; [|discriminate].
    apply expect_length in E5.
    pose proof (skip_ws_length r4).
    intros H'; apply IHm in H'. lia.
  - intros acc s v r. cbn [scan_elems].
    destruct (scan_once f s) as [[v' r1]| |] eqn:E1; try discriminate.
    apply IHo in E1.
    pose proof (skip_ws_length r1).
    destruct (expect 93%N (skip_ws r1)) as [r2|] eqn:E2.
    { apply expect_length in E2. intros [= <- <-]; lia. }
    destruct (expect 44%N (skip_ws r1)) as [r2|] eqn:E3; [|discriminate].
    apply expect_length in E3.
    pose proof (skip_ws_length r2).
    intros H'; apply IHe in H'. lia.
Qed.

(** Twice the length of the input is fuel enough. *)
Lemma scan_fuel (f : nat) :
  (forall s, 2 * length s < f -> scan_once f s <> Exhausted)
  /\ (forall acc s, 2 * length s + 1 < f -> scan_members f acc s <> Exhausted)
  /\ (forall acc s, 2 * length s + 1 < f -> scan_elems f acc s <> Exhausted).
Proof.
  induction f as [|f (IHo & IHm & IHe)]; [repeat split; intros; lia|].
  destruct (scan_consumes f) as (Co & _ & _).
  repeat split.
  - intros s Hf. cbn [scan_once].
    destruct s as [|c s]; [discriminate|]. simpl in Hf.
    destruct (c =? 34)%N.
    { destruct (scanstring None s) as [[x rest]|]; discriminate. }
    pose proof (skip_ws_length s).
    destruct (c =? 123)%N.
    { destruct (expect 125%N (skip_ws s)); [discriminate|]. apply IHm; lia. }
    destruct (c =? 91)%N.
    { destruct (expect 93%N (skip_ws s)); [discriminate|]. apply IHe; lia. }
    destruct (scan_constant (c :: s)); discriminate.
  - intros acc s Hf. cbn [scan_members].
    destruct (expect 34%N s) as [r0|] eqn:E0; [|discriminate].
    apply expect_length in E0.
    destruct (scanstring None r0) as [[k r1]|] eqn:E1; [|discriminate].
    apply (scanstring_length (n:=length r0)) in E1; [|lia].
    pose proof (skip_ws_length r1).
    destruct (expect 58%N (skip_ws r1)) as [r2|] eqn:E2; [|discriminate].
    apply expect_length in E2.
    pose proof (skip_ws_length r2).
    destruct (scan_once f (skip_ws r2)) as [[v' r3]| |] eqn:E3;
      try discriminate.
    + apply Co in E3.
      pose proof (skip_ws_length r3).
      destruct (expect 125%N (skip_ws r3)) as [r4|] eqn:E4; [discriminate|].
      destruct (expect 44%N (skip_ws r3)) as [r4|] eqn:E5; [|discriminate].
      apply expect_length in E5.
      pose proof (skip_ws_length r4).
      apply IHm; lia.
    + exfalso; revert E3; apply IHo; lia.
  - intros acc s Hf. cbn [scan_elems].
    destruct (scan_once f s) as [[v' r1]| |] eqn:E1; try discriminate.
    + apply Co in E1.
      pose proof (skip_ws_length r1).
      destruct (expect 93%N (skip_ws r1)) as [r2|] eqn:E2; [discriminate|].
      destruct (expect 44%N (skip_ws r1)) as [r2|] eqn:E3; [|discriminate].
      apply expect_length in E3.
      pose proof (skip_ws_length r2).
      apply IHe; lia.
    + exfalso; revert E1; apply IHo; lia.
Qed.

(** [loads] never stops for lack of fuel: when it gives [None], the text is
    not valid JSON. *)
Lemma loads_fuel (s : str) :
  scan_once (2 * length s + 2) (skip_ws s) <> Exhausted.
Proof.
  apply scan_fuel. pose proof (skip_ws_length s). lia.
Qed.

End JsonFacts.

(* ------------------------------------------------------------------ *)
(** ** The generation parser *)

Lemma lstrip_clean (s : str) : starts_clean (lstrip s).
Proof.
  induction s as [|c s IH]; simpl; [exact I|].
  destruct (is_space c) eqn:E; [exact IH|exact E].
Qed.

(** [lstrip] drops a prefix. *)
Lemma lstrip_suffix (s : str) : exists p, s = p ++ lstrip s.
Proof.
  induction s as [|c s [p IH]]; [now exists []|].
  simpl. destruct (is_space c).
  - exists (c :: p). simpl. now rewrite <- IH.
  - now exists [].
Qed.

Lemma strip_trimmed (s : str) : trimmed (strip s).
Proof.
  unfold trimmed, strip. rewrite rev_involutive.
  split; [|apply lstrip_clean].
  pose proof (lstrip_clean s) as Hc.
  destruct (lstrip_suffix (rev (lstrip s))) as [p Hp].
  apply (f_equal (@rev char)) in Hp.
  rewrite rev_involutive, rev_app_distr in Hp.
  destruct (rev (lstrip (rev (lstrip s)))) as [|c t]; [exact I|].
  rewrite Hp in Hc. exact Hc.
Qed.

Lemma all_strs_map (l : list value) (ss : list str) :
  all_strs l = Some ss <-> l = map VStr ss.
Proof.
  revert ss; induction l as [|v l IH]; intros ss; simpl.
  - split; [intros [= <-]; reflexivity|].
    destruct ss; [reflexivity|discriminate].
  - destruct v; try (split; [discriminate|destruct ss; discriminate]).
    destruct (all_strs l) as [ss'|] eqn:E.
    + split.
      * intros [= <-]. simpl. f_equal. now apply IH.
      * destruct ss as [|s0 ss]; [discriminate|]. intros [= -> H].
        apply IH in H. now injection H as ->.
    + split; [discriminate|].
      destruct ss as [|s0 ss]; [discriminate|]. intros [= -> H].
      apply IH in H. discriminate.
Qed.

(** On an object, the second phase always returns: the stripped scene and
    the first two options, stripped, when the fields have the expected
    types, and empty defaults otherwise. *)
Lemma scene_and_options_dict (d : dict) :
  scene_and_options (VDict d) =
    Return (strip (match lookup (lit "scene") d with
                   | Some (VStr s) => s
                   | _ => []
                   end),
            map strip (firstn 2 (match lookup (lit "options") d with
                                 | Some (VList l) =>
                                     match all_strs l with
                                     | Some ss => ss
                                     | None => []
                                     end
                                 | _ => []
                                 end))).
Proof.
  unfold scene_and_options, py_get, bind.
  destruct (lookup (lit "scene") d) as [sc|];
    destruct (lookup (lit "options") d) as [op|]; reflexivity.
Qed.

(** Anything but an object has no [get]. *)
Lemma scene_and_options_not_dict (data : value) :
  (forall d, data <> VDict d) -> scene_and_options data = Raise AttributeError.
Proof.
  intros H; destruct data; try reflexivity. now destruct (H d).
Qed.

Lemma scene_and_options_shape data scene labels :
  scene_and_options data = Return (scene, labels) ->
  length labels <= 2 /\ trimmed scene /\ Forall trimmed labels.
Proof.
  destruct data; try discriminate.
  rewrite scene_and_options_dict. intros H.
  apply (f_equal (fun r => match r with
                           | Return p => p
                           | Raise _ => (scene, labels)
                           end)) in H.
  apply (f_equal fst) in H as Hs. apply (f_equal snd) in H as Hl.
  cbn [fst snd] in Hs, Hl. subst scene labels.
  split; [|split].
  - rewrite length_map. apply firstn_le_length.
  - apply strip_trimmed.
  - apply Forall_forall. intros x Hx. apply in_map_iff in Hx as (y & <- & _).
    apply strip_trimmed.
Qed.

(** The regular expression: where the match starts and where it ends. *)
Lemma from_first_open_Some (text r : str) :
  from_first_open text = Some r ->
  exists pre, text = pre ++ 123%N :: r /\ ~ In 123%N pre.
Proof.
  revert r; induction text as [|c text IH]; intros r; simpl; [discriminate|].
  destruct (c =? 123)%N eqn:E.
  - apply N.eqb_eq in E; subst. intros [= ->]. exists []. auto.
  - apply N.eqb_neq in E. intros H. destruct (IH _ H) as (pre & -> & Hpre).
    exists (c :: pre). split; [reflexivity|].
    intros [Hc|Hin]; [now apply E|now apply Hpre].
Qed.

Lemma from_first_open_app (pre rest : str) :
  exists q, from_first_open (pre ++ 123%N :: rest) = Some (q ++ rest).
Proof.
  induction pre as [|c pre [q IH]]; simpl.
  - now exists [].
  - destruct (c =? 123)%N.
    + exists (pre ++ [123%N]). now rewrite <- app_assoc.
    + now exists q.
Qed.

Lemma upto_last_close_Some (r p : str) :
  upto_last_close r = Some p ->
  exists body post,
    p = body ++ [125%N] /\ r = p ++ post /\ ~ In 125%N post.
Proof.
  revert p; induction r as [|c r IH]; intros p; simpl; [discriminate|].
  destruct (upto_last_close r) as [p'|] eqn:E.
  - intros [= <-]. destruct (IH _ eq_refl) as (body & post & -> & Hr & Hpost).
    exists (c :: body), post. simpl. rewrite Hr at 1. auto.
  - destruct (c =? 125)%N eqn:Ec; [|discriminate].
    apply N.eqb_eq in Ec; subst. intros [= <-].
    exists [], r. repeat split.
    clear IH. induction r as [|c r IH]; simpl in *; [tauto|].
    destruct (upto_last_close r); [discriminate|].
    destruct (c =? 125)%N eqn:Ec; [discriminate|].
    apply N.eqb_neq in Ec. intros [H|H]; [now apply Ec|now apply IH].
Qed.

Lemma upto_last_close_None (r : str) :
  upto_last_close r = None -> ~ In 125%N r.
Proof.
  induction r as [|c r IH]; simpl; [tauto|].
  destruct (upto_last_close r); [discriminate|].
  destruct (c =? 125)%N eqn:Ec; [discriminate|].
  apply N.eqb_neq in Ec. intros _ [H|H]; [now apply Ec|now apply IH].
Qed.

(** The match goes from the first opening brace of the text to its last
    closing brace. *)
Lemma search_object_Some (text m : str) :
  search_object text = Some m ->
  exists pre body post,
    text = pre ++ m ++ post /\ m = 123%N :: body ++ [125%N]
    /\ ~ In 123%N pre /\ ~ In 125%N post.
Proof.
  unfold search_object.
  destruct (from_first_open text) as [r|] eqn:E; [|discriminate].
  destruct (upto_last_close r) as [p|] eqn:E'; [|discriminate].
  intros [= <-].
  apply from_first_open_Some in E as (pre & -> & Hpre).
  apply upto_last_close_Some in E' as (body & post & -> & -> & Hpost).
  exists pre, body, post. repeat split; auto.
Qed.

(** There is no match only when no closing brace follows an opening one. *)
Lemma search_object_None (text : str) :
  search_object text = None ->
  forall pre body post, text <> pre ++ 123%N :: body ++ 125%N :: post.
Proof.
  unfold search_object. intros H pre body post Heq. subst text.
  destruct (from_first_open_app pre (body ++ 125%N :: post)) as [q E].
  unfold str, char in *. rewrite E in H.
  destruct (upto_last_close (q ++ body ++ 125%N :: post)) eqn:E';
    [discriminate|].
  apply upto_last_close_None in E'. apply E'.
  rewrite !in_app_iff. right; right. now left.
Qed.

(** [lstrip] cuts off white space only. *)
Lemma lstrip_split (s : str) :
  exists p, s = p ++ lstrip s /\ forallb is_space p = true.
Proof.
  induction s as [|c s (p & IH & Hp)]; [now exists []|].
  simpl. destruct (is_space c) eqn:E.
  - exists (c :: p). simpl. rewrite E, Hp. split; [now rewrite <- IH|auto].
  - now exists [].
Qed.

Lemma forallb_rev {A} (f : A -> bool) (l : list A) :
  forallb f l = true -> forallb f (rev l) = true.
Proof.
  rewrite !forallb_forall. intros H x Hx. apply H. now apply in_rev.
Qed.

(** [strip] gives the trimming of its argument. *)
Lemma strip_trimming_of (s : str) : trimming_of s (strip s).
Proof.
  destruct (lstrip_split s) as (p & Hs & Hp).
  destruct (lstrip_split (rev (lstrip s))) as (q & Hr & Hq).
  exists p, (rev q). repeat split.
  - apply (f_equal (@rev char)) in Hr.
    rewrite rev_involutive, rev_app_distr in Hr.
    unfold strip. rewrite <- Hr. exact Hs.
  - exact Hp.
  - now apply forallb_rev.
  - apply strip_trimmed.
  - apply strip_trimmed.
Qed.

Lemma lstrip_spaces (p rest : str) :
  forallb is_space p = true -> starts_clean rest ->
  lstrip (p ++ rest) = rest.
Proof.
  induction p as [|c p IH]; simpl; intros Hp Hc.
  - destruct rest as [|c rest]; [reflexivity|]. simpl in *. now rewrite Hc.
  - apply andb_true_iff in Hp as [-> Hp]. now apply IH.
Qed.

(** There is only one trimming of a string, and [strip] gives it. *)
Lemma trimming_of_unique (raw out : str) :
  trimming_of raw out -> out = strip raw.
Proof.
  intros (pre & post & -> & Hpre & Hpost & Hs & He).
  unfold strip. destruct out as [|c out].
  - cbn [app]. rewrite <- (app_nil_r (pre ++ post)).
    rewrite lstrip_spaces; [reflexivity| |exact I].
    rewrite forallb_app. now rewrite Hpre, Hpost.
  - rewrite lstrip_spaces; [|exact Hpre|exact Hs].
    rewrite rev_app_distr.
    rewrite lstrip_spaces; [now rewrite rev_involutive| |exact He].
    now apply forallb_rev.
Qed.

Lemma Forall2_strip (ss : list str) : Forall2 trimming_of ss (map strip ss).
Proof.
  induction ss as [|s ss IH]; simpl; constructor; auto.
  apply strip_trimming_of.
Qed.

(** C4 -- The parser first decodes the whole raw output strictly; when that
    fails it retries on the text from the first opening brace to the last
    closing brace, and gives the empty scene and no labels when there is no
    such text or it does not decode.  A returned label list has at most two
    entries, the first options in their order, and the scene and every
    label have no white space at either end: the scene returned is the
    scene field without the white space at its ends, and the labels
    returned are the first two options, in their order, each without the
    white space at its ends.  The raw output with noise around the object
    gives scene S and labels A, B; the raw output garbage gives the empty
    scene and no labels. *)
Theorem parse_policy :
  (forall text data,
      json_loads text = Some data ->
      parse_scene_and_options_json text = scene_and_options data)
  /\ (forall text m,
         json_loads text = None -> search_object text = Some m ->
         (exists pre body post,
             text = pre ++ m ++ post /\ m = 123%N :: body ++ [125%N]
             /\ ~ In 123%N pre /\ ~ In 125%N post)
         /\ parse_scene_and_options_json text =
              match json_loads m with
              | Some data => scene_and_options data
              | None => Return ([], [])
              end)
  /\ (forall text,
         json_loads text = None -> search_object text = None ->
         (forall pre body post, text <> pre ++ 123%N :: body ++ 125%N :: post)
         /\ parse_scene_and_options_json text = Return ([], []))
  /\ (forall text scene labels,
         parse_scene_and_options_json text = Return (scene, labels) ->
         length labels <= 2 /\ trimmed scene /\ Forall trimmed labels)
  /\ (forall d l ss,
         lookup (lit "options") d = Some (VList l) -> all_strs l = Some ss ->
         exists scene,
           scene_and_options (VDict d)
           = Return (scene, map strip (firstn 2 ss)))
  /\ parse_scene_and_options_json
       (quoted "noise {'scene':'S','options':['A','B']} trailing")
     = Return (lit "S", [lit "A"; lit "B"])
  /\ parse_scene_and_options_json (lit "garbage") = Return ([], [])
  /\ (forall d,
         exists scene labels,
           scene_and_options (VDict d) = Return (scene, labels)
           /\ (forall s, lookup (lit "scene") d = Some (VStr s) ->
                          trimming_of s scene)
           /\ ((forall s, lookup (lit "scene") d <> Some (VStr s)) ->
               scene = [])
           /\ (forall ss,
                  lookup (lit "options") d = Some (VList (map VStr ss)) ->
                  Forall2 trimming_of (firstn 2 ss) labels))
  /\ (forall raw out, trimming_of raw out <-> out = strip raw)
  /\ parse_scene_and_options_json
       (quoted "{'scene': ' S ', 'options': [' A', 'B  ', ' C ']}")
     = Return (lit "S", [lit "A"; lit "B"]).
Proof.
  unfold parse_scene_and_options_json, decode_with_recovery.
  repeat match goal with
         | |- _ /\ _ => split
         end.
  - intros text data ->. reflexivity.
  - intros text m -> Hm. split; [now apply search_object_Some|].
    rewrite Hm. now destruct (json_loads m).
  - intros text -> Hm. split; [now apply search_object_None|].
    now rewrite Hm.
  - intros text scene labels.
    destruct (json_loads text) as [data|].
    { apply scene_and_options_shape. }
    destruct (search_object text) as [m|].
    { destruct (json_loads m) as [data|].
      - apply scene_and_options_shape.
      - intros [= <- <-]. repeat split; simpl; auto. }
    intros [= <- <-]. repeat split; simpl; auto.
  - intros d l ss Hl Hss. rewrite scene_and_options_dict, Hl, Hss. eauto.
  - vm_compute. reflexivity.
  - vm_compute. reflexivity.
  - intros d. rewrite scene_and_options_dict.
    eexists. eexists. split; [reflexivity|]. repeat split.
    + intros s ->. apply strip_trimming_of.
    + intros H. destruct (lookup (lit "scene") d) as [[]|]; try reflexivity.
      now destruct (H s).
    + intros ss ->.
      rewrite (proj2 (all_strs_map (map VStr ss) ss) eq_refl).
      apply Forall2_strip.
  - intros raw out. split; [apply trimming_of_unique|].
    intros ->. apply strip_trimming_of.
  - vm_compute. reflexivity.
Qed.

Lemma parse_policy_witness :
  length [lit "A"; lit "B"] <= 2
  /\ trimmed (lit "S") /\ Forall trimmed [lit "A"; lit "B"].
Proof.
  apply (proj1 (proj2 (proj2 (proj2 parse_policy)))
           (quoted "noise {'scene':'S','options':['A','B']} trailing")).
  vm_compute. reflexivity.
Defined.

(** C3 -- The parser does signal an error: on a raw output that decodes to
    anything but an object (here an empty array) the call of [get] raises
    [AttributeError].  This is its only failure: it raises exactly when the
    decoded value is not an object, and returns in every other case. *)
Theorem parse_raises_on_non_object :
  parse_scene_and_options_json (lit "[]") = Raise AttributeError
  /\ (forall text e,
         parse_scene_and_options_json text = Raise e ->
         e = AttributeError
         /\ exists data, decode_with_recovery text = Some data
                         /\ forall d, data <> VDict d)
  /\ (forall text data,
         decode_with_recovery text = Some data ->
         (forall d, data <> VDict d) ->
         parse_scene_and_options_json text = Raise AttributeError).
Proof.
  repeat apply conj.
  - vm_compute. reflexivity.
  - intros text e. unfold parse_scene_and_options_json.
    destruct (decode_with_recovery text) as [data|]; [|discriminate].
    destruct data; try (intros [= <-]; split;
                         [reflexivity|eexists; split; [reflexivity|]];
                         intros ? ?; discriminate).
    now rewrite scene_and_options_dict.
  - intros text data H Hd. unfold parse_scene_and_options_json.
    rewrite H. now apply scene_and_options_not_dict.
Qed.

Lemma parse_raises_on_non_object_witness :
  parse_scene_and_options_json (lit "5") = Raise AttributeError.
Proof.
  apply (proj2 (proj2 parse_raises_on_non_object) (lit "5") (VInt 5)).
  - vm_compute. reflexivity.
  - intros d H. discriminate.
Defined.

(* ------------------------------------------------------------------ *)
(** ** The validator *)

Lemma for_each_Return {A} (body : A -> result unit) (l : list A) :
  for_each body l = Return tt <-> Forall (fun x => body x = Return tt) l.
Proof.
  induction l as [|x l IH]; simpl.
  - split; auto.
  - unfold bind. destruct (body x) as [[]|e] eqn:E.
    + rewrite IH. split; [now constructor|now inversion 1].
    + split; [discriminate|]. inversion 1; subst. congruence.
Qed.

Lemma for_each_Raise {A} (body : A -> result unit) (l : list A) (e : exn) :
  for_each body l = Raise e -> exists x, In x l /\ body x = Raise e.
Proof.
  induction l as [|x l IH]; simpl; [discriminate|].
  unfold bind. destruct (body x) as [[]|e'] eqn:E.
  - intros H. destruct (IH H) as (y & Hy & Hb). eauto.
  - intros [= ->]. eauto.
Qed.

(** The first loop accepts objects only, with a string text and a list of
    options if any; on an object it raises nothing but [ValueError]. *)
Lemma check_shape_object (k : str) (f : dict) :
  check_shape (k, VDict f) =
    match lookup (lit "text") f with
    | Some (VStr _) =>
        match lookup (lit "options") f with
        | None | Some (VList _) => Return tt
        | Some _ => Raise (ValueError (OptionsNotList k))
        end
    | _ => Raise (ValueError (NodeTextNotString k))
    end.
Proof.
  unfold check_shape, py_contains, py_getitem, has_key, bind.
  destruct (lookup (lit "text") f) as [[]|];
    destruct (lookup (lit "options") f) as [[]|]; reflexivity.
Qed.

Lemma check_shape_Return (k : str) (node : value) :
  check_shape (k, node) = Return tt -> exists f, node = VDict f.
Proof.
  destruct node; try discriminate; eauto.
  - unfold check_shape, py_contains, py_getitem, bind.
    destruct (is_substring (lit "text") s); discriminate.
  - unfold check_shape, py_contains, py_getitem, bind.
    match goal with |- context [existsb ?p l] => destruct (existsb p l) end;
      discriminate.
Qed.

Lemma py_in_story_hashable (story : dict) (v : value) :
  hashable v = true -> py_in_story v story = Return (known story v).
Proof. destruct v; simpl; try discriminate; reflexivity. Qed.

(** The second loop, on one option. *)
Lemma check_option_Return (story : dict) (k : str) (opt : value) :
  check_option story k opt = Return tt -> option_ok story opt = true.
Proof.
  destruct opt; try discriminate.
  unfold check_option, option_ok, py_get, bind.
  destruct (lookup (lit "next") d) as [v|]; [|reflexivity].
  destruct (truthy v) eqn:Ev; [|reflexivity].
  destruct v; simpl in *; try discriminate.
  destruct (has_key s story); [reflexivity|discriminate].
Qed.

Lemma check_option_kind (story : dict) (k : str) (opt : value) (e : exn) :
  typed_option opt = true ->
  check_option story k opt = Raise e -> exists c, e = ValueError c.
Proof.
  destruct opt; try discriminate.
  unfold check_option, typed_option, py_get, bind.
  destruct (lookup (lit "next") d) as [v|]; [|discriminate].
  intros Hv. rewrite (py_in_story_hashable story v Hv).
  destruct (truthy v); [|discriminate].
  destruct (known story v); simpl; [discriminate|].
  intros [= <-]. eauto.
Qed.

Lemma check_next_map_entry_Return (story : dict) (k : str) (t : value) :
  check_next_map_entry story k t = Return tt -> known story t = true.
Proof.
  unfold check_next_map_entry, bind.
  destruct t; try discriminate. simpl.
  destruct (has_key s story); [reflexivity|discriminate].
Qed.

Lemma check_next_map_entry_kind (story : dict) (k : str) (t : value) e :
  check_next_map_entry story k t = Raise e -> exists c, e = ValueError c.
Proof.
  unfold check_next_map_entry, bind.
  destruct t; simpl; try (intros [= <-]; eauto).
  destruct (has_key s story); simpl; [discriminate|intros [= <-]; eauto].
Qed.

Lemma for_each_forallb {A} (body : A -> result unit) (p : A -> bool) l :
  (forall x, body x = Return tt -> p x = true) ->
  for_each body l = Return tt -> forallb p l = true.
Proof.
  intros Hp H. apply for_each_Return in H. apply forallb_forall.
  rewrite Forall_forall in H. auto.
Qed.

Lemma py_get_object (f : dict) (k : str) (default : value) :
  py_get (VDict f) k default
  = Return (match lookup k f with Some v => v | None => default end).
Proof. unfold py_get. now destruct (lookup k f). Qed.

Lemma bind_unit_Return (a b : result unit) :
  (a ;;; b) = Return tt -> a = Return tt /\ b = Return tt.
Proof. destruct a as [[]|]; simpl; [auto|discriminate]. Qed.

Lemma bind_unit_Raise (a b : result unit) (e : exn) :
  (a ;;; b) = Raise e -> a = Raise e \/ (a = Return tt /\ b = Raise e).
Proof. destruct a as [[]|]; simpl; [auto|intros [= ->]; auto]. Qed.

(** The third loop on an object: what it has checked when it returns. *)
Lemma check_routes_Return (story : dict) (k : str) (f : dict) :
  check_routes story (k, VDict f) = Return tt ->
  (let opts := match lookup (lit "options") f with
               | Some v => v | None => VNone end in
   let hint := match lookup (lit "next_hint") f with
               | Some v => v | None => VNone end in
   let nm := match lookup (lit "next_map") f with
             | Some v => v | None => VNone end in
   let nxt := match lookup (lit "next") f with
              | Some v => v | None => VNone end in
   negb (negb (truthy opts) && truthy hint) || truthy nm || truthy nxt) = true
  /\ refs_ok story (VDict f) = true.
Proof.
  unfold check_routes. rewrite !py_get_object. cbn [bind]. unfold refs_ok.
  intros H. apply bind_unit_Return in H as [HA H].
  apply bind_unit_Return in H as [HB HC].
  split; [|apply andb_true_iff; split].
  - cbv zeta.
    destruct (negb (truthy _) && truthy _); [|reflexivity].
    destruct (truthy match lookup (lit "next_map") f with
                     | Some v => v | None => VNone end);
      [reflexivity|].
    destruct (truthy match lookup (lit "next") f with
                     | Some v => v | None => VNone end);
      [reflexivity|discriminate].
  - destruct (lookup (lit "next_map") f) as [[]|]; try discriminate;
      try reflexivity.
    cbn [is_none negb] in HB.
    revert HB. apply for_each_forallb, check_next_map_entry_Return.
  - destruct (lookup (lit "next") f) as [[]|]; try discriminate;
      try reflexivity.
    cbn [is_none negb py_in_story bind known] in *.
    destruct (has_key s story); [reflexivity|discriminate].
Qed.

(** On an object whose [next] is hashable the third loop raises nothing but
    [ValueError]. *)
Lemma check_routes_kind (story : dict) (k : str) (f : dict) (e : exn) :
  match lookup (lit "next") f with
  | Some v => hashable v
  | None => true
  end = true ->
  check_routes story (k, VDict f) = Raise e -> exists c, e = ValueError c.
Proof.
  unfold check_routes. rewrite !py_get_object. cbn [bind].
  intros Hh H. apply bind_unit_Raise in H as [H|[_ H]].
  { destruct (negb (truthy _) && truthy _); [|discriminate].
    destruct (negb (truthy _) && negb (truthy _)); [|discriminate].
    injection H as <-. eauto. }
  apply bind_unit_Raise in H as [H|[_ H]].
  { destruct (lookup (lit "next_map") f) as [[]|]; try discriminate;
      cbn [is_none negb] in H; try (injection H as <-; eauto).
    apply for_each_Raise in H as (t & _ & H).
    now apply check_next_map_entry_kind in H. }
  destruct (lookup (lit "next") f) as [v|]; [|discriminate].
  destruct (is_none v); [discriminate|]. cbn [negb] in H.
  rewrite (py_in_story_hashable story v Hh) in H. cbn [bind] in H.
  destruct (known story v); [discriminate|].
  injection H as <-. eauto.
Qed.

(** The second loop on an object the first loop has accepted. *)
Lemma check_options_object (story : dict) (k : str) (f : dict) :
  check_shape (k, VDict f) = Return tt ->
  check_options story (k, VDict f) =
    match lookup (lit "options") f with
    | Some (VList l) => for_each (check_option story k) l
    | _ => Return tt
    end.
Proof.
  rewrite check_shape_object. unfold check_options.
  rewrite py_get_object.
  destruct (lookup (lit "text") f) as [[]|]; try discriminate.
  destruct (lookup (lit "options") f) as [[]|]; try discriminate;
    reflexivity.
Qed.

(** A node that passes the three loops is valid. *)
Lemma checks_valid_node (story : dict) (k : str) (node : value) :
  check_shape (k, node) = Return tt ->
  check_options story (k, node) = Return tt ->
  check_routes story (k, node) = Return tt ->
  valid_node story node = true.
Proof.
  intros H1 H2 H3.
  destruct (check_shape_Return _ _ H1) as [f ->].
  rewrite (check_options_object story _ _ H1) in H2.
  rewrite check_shape_object in H1.
  apply check_routes_Return in H3 as [Hr Hrefs].
  unfold valid_node. cbv zeta in Hr |- *. rewrite Hrefs, Hr, !andb_true_r.
  destruct (lookup (lit "text") f) as [[]|]; try discriminate.
  destruct (lookup (lit "options") f) as [[]|]; try discriminate;
    try reflexivity.
  cbn [andb]. revert H2. apply for_each_forallb, check_option_Return.
Qed.

(** Every node of a story the validator accepts is valid. *)
Lemma validate_sound (story : dict) :
  validate story = Return tt ->
  forall k node, In (k, node) story -> valid_node story node = true.
Proof.
  unfold validate. intros H k node Hin.
  apply bind_unit_Return in H as [H1 H].
  apply bind_unit_Return in H as [H2 H3].
  rewrite for_each_Return, Forall_forall in H1, H2, H3.
  apply (checks_valid_node story k); auto.
Qed.

(** On a story made of objects the validator raises nothing but
    [ValueError]. *)
Lemma validate_kind (story : dict) (e : exn) :
  typed_story story = true ->
  validate story = Raise e -> exists c, e = ValueError c.
Proof.
  unfold validate, typed_story. intros Ht H.
  rewrite forallb_forall in Ht.
  assert (Hobj : forall k node, In (k, node) story ->
                 exists f, node = VDict f /\ typed_node (VDict f) = true).
  { intros k node Hin. specialize (Ht _ Hin). simpl in Ht.
    destruct node; try discriminate. eauto. }
  apply bind_unit_Raise in H as [H|[H1 H]].
  { apply for_each_Raise in H as ([k node] & Hin & H).
    destruct (Hobj _ _ Hin) as (f & -> & _).
    rewrite check_shape_object in H.
    destruct (lookup (lit "text") f) as [[]|];
      try (injection H as <-; eauto).
    destruct (lookup (lit "options") f) as [[]|]; try discriminate;
      injection H as <-; eauto. }
  rewrite for_each_Return, Forall_forall in H1.
  apply bind_unit_Raise in H as [H|[_ H]].
  - apply for_each_Raise in H as ([k node] & Hin & H).
    destruct (Hobj _ _ Hin) as (f & -> & Hty).
    rewrite (check_options_object story _ _ (H1 _ Hin)) in H.
    unfold typed_node in Hty. apply andb_true_iff in Hty as [Hty _].
    destruct (lookup (lit "options") f) as [[]|]; try discriminate.
    apply for_each_Raise in H as (opt & Hopt & H).
    rewrite forallb_forall in Hty.
    apply (check_option_kind story k opt); auto.
  - apply for_each_Raise in H as ([k node] & Hin & H).
    destruct (Hobj _ _ Hin) as (f & -> & Hty).
    unfold typed_node in Hty. apply andb_true_iff in Hty as [_ Hty].
    now apply (check_routes_kind story k f).
Qed.

Lemma load_story_Return (src : source) (story : dict) :
  load_story src = Return story ->
  path_exists src = true
  /\ exists text, read_text src = Return text
                  /\ json_loads text = Some (VDict story)
                  /\ validate story = Return tt.
Proof.
  unfold load_story.
  destruct (path_exists src); [|discriminate]. cbn [negb].
  destruct (read_text src) as [text|]; [|discriminate]. cbn [bind].
  destruct (json_loads text) as [[]|] eqn:E; try discriminate.
  destruct (validate d) as [[]|] eqn:V; [|discriminate].
  intros [= <-]. eauto.
Qed.

(** Every node of a loaded story is valid: it is an object with a string
    text; its options, if any, are a list of objects whose [next] is
    absent, falsy or a key of the story; a hinted node has a route; its
    [next_map], if any, is a list of keys; its [next], if any, is a key. *)
Lemma load_story_sound (src : source) (story : dict) :
  load_story src = Return story ->
  forall k node, In (k, node) story -> valid_node story node = true.
Proof.
  intros H. apply load_story_Return in H as (_ & text & _ & _ & H).
  now apply validate_sound.
Qed.

Lemma valid_node_refs_ok (story : dict) (node : value) :
  valid_node story node = true -> refs_ok story node = true.
Proof.
  destruct node; try discriminate. unfold valid_node.
  intros H. now apply andb_true_iff in H as [_ H].
Qed.

(** C2 -- The loader accepts a story in which an authored option refers to
    a node that does not exist: the second loop skips every falsy [next],
    the empty string among them, where the check of a node's own [next]
    only skips [None].  Here the option of the entry node refers to the
    empty identifier, which is no key of the loaded story, and pressing its
    button raises [KeyError]. *)
Theorem load_story_accepts_dangling_option :
  let text :=
    quoted "{'start': {'text': 't', 'options': [{'label': 'x', 'next': ''}]}}" in
  let opt := VDict [(lit "label", VStr (lit "x")); (lit "next", VStr [])] in
  let story :=
    [(lit "start",
      VDict [(lit "text", VStr (lit "t")); (lit "options", VList [opt])])] in
  load_story (file text) = Return story
  /\ py_get opt (lit "next") VNone = Return (VStr [])
  /\ has_key [] story = false
  /\ (exists u, build_ui (file text) = (u, Return (story, None))
                /\ routes u = [(VStr (lit "x"), Some (Return (VStr [])))]
                /\ snd (press (btn1 u) story u) = Raise (KeyError (VStr [])))
  /\ load_story
       (file (quoted "{'start': {'text': 't', 'next': ''}}"))
     = Raise (ValueError (NextUnknownNode (lit "start") (VStr []))).
Proof.
  cbv zeta. repeat apply conj; try (vm_compute; reflexivity).
  eexists. repeat apply conj; vm_compute; reflexivity.
Qed.

(** One rejected source for each cause the loader names. *)
Example load_story_causes :
  load_story missing_file = Raise (FileNotFoundError StoryFileNotFound)
  /\ load_story {| path_exists := true; read_text := Raise OSError |}
     = Raise OSError
  /\ load_story (file (lit "{")) = Raise (ValueError NotValidJSON)
  /\ load_story (file (lit "[]")) = Raise (ValueError TopLevelNotObject)
  /\ load_story (file (quoted "{'a': {'text': 1}}"))
     = Raise (ValueError (NodeTextNotString (lit "a")))
  /\ load_story (file (quoted "{'a': {'text': 't', 'options': 3}}"))
     = Raise (ValueError (OptionsNotList (lit "a")))
  /\ load_story
       (file (quoted "{'a': {'text': 't', 'options': [{'next': 'b'}]}}"))
     = Raise (ValueError (OptionUnknownNode (lit "a") (VStr (lit "b"))))
  /\ load_story (file (quoted "{'a': {'text': 't', 'next_hint': 'h'}}"))
     = Raise (ValueError (HintWithoutRoute (lit "a")))
  /\ load_story (file (quoted "{'a': {'text': 't', 'next_map': 'a'}}"))
     = Raise (ValueError (NextMapNotList (lit "a")))
  /\ load_story (file (quoted "{'a': {'text': 't', 'next_map': ['a', 1]}}"))
     = Raise (ValueError (NextMapEntryNotString (lit "a")))
  /\ load_story (file (quoted "{'a': {'text': 't', 'next_map': ['b']}}"))
     = Raise (ValueError (NextMapUnknownNode (lit "a") (VStr (lit "b"))))
  /\ load_story (file (quoted "{'a': {'text': 't', 'next': 'b'}}"))
     = Raise (ValueError (NextUnknownNode (lit "a") (VStr (lit "b")))).
Proof. repeat apply conj; vm_compute; reflexivity. Qed.

(** Outside the stories made of objects other exceptions escape: a node
    that is a number cannot be searched for its text, an option that is a
    string has no [get], a list cannot be looked up in the story. *)
Example load_story_untyped :
  load_story (file (quoted "{'a': 5}")) = Raise TypeError
  /\ load_story (file (quoted "{'a': {'text': 't', 'options': ['x']}}"))
     = Raise AttributeError
  /\ load_story (file (quoted "{'a': {'text': 't', 'next': [1]}}"))
     = Raise TypeError.
Proof. repeat apply conj; vm_compute; reflexivity. Qed.

(** C8 (as the claim states it) -- The failures of the loader are not of one
    kind: a missing file raises [FileNotFoundError], a top-level array
    raises [ValueError]. *)
Lemma load_story_two_kinds :
  ~ exists k, forall src e, load_story src = Raise e -> kind_of e = k.
Proof.
  intros [k H].
  pose proof (H missing_file (FileNotFoundError StoryFileNotFound) eq_refl)
    as H1.
  assert (H2 : load_story (file (lit "[]"))
               = Raise (ValueError TopLevelNotObject))
    by (vm_compute; reflexivity).
  apply H in H2. simpl in H1, H2. congruence.
Qed.

(** C8 (amended) -- When the loader fails, [build_ui] shows the same Story
    Load Error dialog with the cause and exits with status 1, whatever was
    raised.  What is raised is [FileNotFoundError] when the file is missing,
    the exception of the read when the file is unreadable, and [ValueError]
    with its cause when the text is not valid JSON, when its top-level value
    is not an object, and, for a story made of objects, when validation
    rejects it.  And validation rejects every story with a node that is not
    valid. *)
Theorem load_story_failure_kinds :
  (forall src e,
      load_story src = Raise e ->
      build_ui src
      = (showerror (lit "Story Load Error") e initial_ui, Raise (SystemExit 1))
      /\ if negb (path_exists src)
         then e = FileNotFoundError StoryFileNotFound
         else match read_text src with
              | Raise e' => e = e'
              | Return text =>
                  match json_loads text with
                  | None => e = ValueError NotValidJSON
                  | Some (VDict story) =>
                      validate story = Raise e
                      /\ (typed_story story = true ->
                          exists c, e = ValueError c)
                  | Some _ => e = ValueError TopLevelNotObject
                  end
              end)
  /\ (forall src story k node,
         load_story src = Return story ->
         In (k, node) story -> valid_node story node = true).
Proof.
  split; [|intros src story k node H; now apply (load_story_sound src)].
  intros src e H. split; [unfold build_ui; now rewrite H|].
  revert H. unfold load_story.
  destruct (path_exists src); cbn [negb]; [|now intros [= <-]].
  destruct (read_text src) as [text|e']; cbn [bind]; [|now intros [= <-]].
  destruct (json_loads text) as [[]|]; try (now intros [= <-]).
  destruct (validate d) as [[]|e'] eqn:V; [discriminate|].
  intros [= <-]. split; [reflexivity|].
  intros Ht. now apply (validate_kind d).
Qed.

Lemma load_story_failure_kinds_witness :
  build_ui (file (quoted "{'a': {'text': 't', 'next_hint': 'h'}}"))
  = (showerror (lit "Story Load Error")
       (ValueError (HintWithoutRoute (lit "a"))) initial_ui,
     Raise (SystemExit 1))
  /\ exists c, ValueError (HintWithoutRoute (lit "a")) = ValueError c.
Proof.
  pose proof (proj1 load_story_failure_kinds
                (file (quoted "{'a': {'text': 't', 'next_hint': 'h'}}"))
                (ValueError (HintWithoutRoute (lit "a")))) as H.
  destruct H as [Hb Hk]; [vm_compute; reflexivity|].
  split; [exact Hb|].
  vm_compute in Hk. destruct Hk as [_ Hk]. vm_compute. apply Hk. reflexivity.
Defined.

(* ------------------------------------------------------------------ *)
(** ** The window *)

(** What [set_buttons] does with a list: the first two options, when they
    carry a label, are put on the buttons in order; a button without an
    option is hidden.  The text, the status line and the dialogs are left
    alone. *)
Lemma set_buttons_routes (opts : list value) (labels : list value) (u : ui) :
  map (fun o => py_getitem o (lit "label")) (firstn 2 opts)
  = map (@Return value) labels ->
  exists u',
    set_buttons (VList opts) u = (u', Return tt)
    /\ box_text u' = box_text u
    /\ status_text u' = status_text u
    /\ dialogs u' = dialogs u
    /\ routes u'
       = combine labels
           (map (fun o => Some (py_getitem o (lit "next"))) (firstn 2 opts)).
Proof.
  destruct opts as [|o1 [|o2 rest]]; destruct labels as [|l1 [|l2 ls]];
    try discriminate; cbn [map firstn].
  - intros _. eexists. repeat split.
  - intros [= H1]. eexists.
    unfold set_buttons, bindM, lift, modify. cbn [py_len length Nat.leb py_index
                                                  nth_error].
    rewrite H1. repeat split.
  - intros [= H1 H2]. destruct ls; [|discriminate]. eexists.
    unfold set_buttons, bindM, lift, modify. cbn [py_len length Nat.leb py_index
                                                  nth_error].
    rewrite H1, H2. repeat split.
Qed.

(** [show_node] starts a thread only for a hinted node: an object of the
    story with a string text, no options to show and a hint. *)
Lemma show_node_job (id : value) (story : dict) (u0 u1 : ui) (j : job) :
  show_node id story u0 = (u1, Return (Some j)) ->
  exists nid fields t,
    id = VStr nid
    /\ lookup nid story = Some (VDict fields)
    /\ lookup (lit "text") fields = Some (VStr t)
    /\ truthy (match lookup (lit "options") fields with
               | Some v => v | None => VList [] end) = false
    /\ truthy (job_hint j) = true
    /\ job_hint j = match lookup (lit "next_hint") fields with
                    | Some v => v | None => VStr [] end
    /\ job_node j = VDict fields
    /\ job_node_id j = nid
    /\ box_text u1 = VStr (t ++ generating)
    /\ routes u1 = [].
Proof.
  unfold show_node, render_text, bindM, lift, modify, ret, story_getitem.
  destruct id; try discriminate.
  destruct (lookup s story) as [node|] eqn:Hn; [|discriminate].
  destruct node; try discriminate.
  rewrite !py_get_object. unfold py_getitem.
  destruct (truthy match lookup (lit "options") d with
                   | Some v => v | None => VList [] end) eqn:Ho.
  { destruct (lookup (lit "text") d); [|discriminate].
    match goal with
    | |- context [set_buttons ?a ?b] =>
        destruct (set_buttons a b) as [u' [[]|]]
    end; discriminate. }
  destruct (truthy match lookup (lit "next_hint") d with
                   | Some v => v | None => VStr [] end) eqn:Hh; cbn [negb].
  2:{ destruct (lookup (lit "text") d); [|discriminate].
      match goal with
    | |- context [set_buttons ?a ?b] =>
        destruct (set_buttons a b) as [u' [[]|]]
    end; discriminate. }
  destruct (lookup (lit "text") d) as [t|] eqn:Ht; [|discriminate].
  destruct t; try discriminate. cbn [py_add_str].
  intros [= <- <-]. exists s, d, s0. repeat split; auto.
Qed.




(** C7 -- A node with no options to show (absent, empty, or otherwise
    falsy) and no hint (absent or empty) is resolved on the spot: its text
    is shown, both buttons are hidden, and no generation thread is
    started. *)
Theorem terminal_node_shown (story : dict) (nid : str) (fields : dict)
    (t : value) (u : ui) :
  lookup nid story = Some (VDict fields) ->
  match lookup (lit "options") fields with
  | Some opts => truthy opts = false
  | None => True
  end ->
  match lookup (lit "next_hint") fields with
  | Some hint => truthy hint = false
  | None => True
  end ->
  lookup (lit "text") fields = Some t ->
  let u' := set_btn2 pack_forget
              (set_btn1 pack_forget
                 (set_box t (set_status (lit "Node: " ++ nid) u))) in
  show_node (VStr nid) story u = (u', Return None)
  /\ box_text u' = t
  /\ routes u' = [].
Proof.
  intros Hn Ho Hh Ht.
  unfold show_node, render_text, bindM, lift, modify, ret, story_getitem.
  rewrite Hn, !py_get_object. unfold py_getitem. rewrite Ht.
  destruct (lookup (lit "options") fields) as [opts|];
    [rewrite Ho|cbn [truthy]];
    (destruct (lookup (lit "next_hint") fields) as [hint|];
     [rewrite Hh|cbn [truthy]]);
    repeat split.
Qed.

Lemma terminal_node_shown_witness :
  show_node (VStr (lit "end")) the_end initial_ui
  = (set_btn2 pack_forget
       (set_btn1 pack_forget
          (set_box (VStr (lit "The end."))
             (set_status (lit "Node: " ++ lit "end") initial_ui))),
     Return None)
  /\ box_text
       (set_btn2 pack_forget
          (set_btn1 pack_forget
             (set_box (VStr (lit "The end."))
                (set_status (lit "Node: " ++ lit "end") initial_ui))))
     = VStr (lit "The end.")
  /\ routes
       (set_btn2 pack_forget
          (set_btn1 pack_forget
             (set_box (VStr (lit "The end."))
                (set_status (lit "Node: " ++ lit "end") initial_ui))))
     = [].
Proof.
  refine (@terminal_node_shown the_end (lit "end") the_end_fields
            (VStr (lit "The end.")) initial_ui _ _ _ _);
    vm_compute; auto.
Defined.

(** C10 -- Navigation begins at the identifier start, and the loader does
    not check that the story has this key: on a loaded story without it,
    the first [show_node] looks the key up and raises [KeyError] out of
    [build_ui], before any widget is touched. *)
Theorem entry_node_unchecked (src : source) (story : dict) :
  load_story src = Return story ->
  (build_ui src
   = let (u, r) := show_node (VStr (lit "start")) story initial_ui in
     (u, started <- r ;; Return (story, started)))
  /\ (has_key (lit "start") story = false ->
      build_ui src = (initial_ui, Raise (KeyError (VStr (lit "start"))))).
Proof.
  intros H. unfold build_ui. rewrite H. split.
  - unfold bindM, ret.
    destruct (show_node (VStr (lit "start")) story initial_ui) as [u [r|e]];
      reflexivity.
  - unfold has_key. intros Hk.
    unfold bindM, show_node, lift, story_getitem.
    destruct (lookup (lit "start") story); [discriminate|reflexivity].
Qed.

Lemma entry_node_unchecked_witness :
  build_ui (file (quoted "{'a': {'text': 't'}}"))
  = (initial_ui, Raise (KeyError (VStr (lit "start")))).
Proof.
  refine (proj2 (@entry_node_unchecked
                   (file (quoted "{'a': {'text': 't'}}"))
                   [(lit "a", VDict [(lit "text", VStr (lit "t"))])] _) _);
    vm_compute; reflexivity.
Defined.

(* ------------------------------------------------------------------ *)
(** ** Routing the generated options *)

(** The [targets] of an object node. *)
Lemma targets_of_object (fields : dict) (nid : str) (labels : list str) :
  targets_of (VDict fields) nid labels =
    Return match lookup (lit "next_map") fields with
           | Some (VList (x :: l)) => strs_of (x :: l)
           | _ => match lookup (lit "next") fields with
                  | Some (VStr z) => repeat z (Nat.max 1 (length labels))
                  | _ => repeat nid (Nat.max 1 (length labels))
                  end
           end.
Proof.
  unfold targets_of, py_contains, py_getitem, has_key.
  rewrite py_get_object.
  destruct (lookup (lit "next_map") fields) as [nm|]; cbn [bind].
  - destruct nm; cbn [is_list truthy andb bind py_iter];
      try (destruct (lookup (lit "next") fields) as [[]|]; reflexivity).
    destruct l; cbn [bind py_iter]; [|reflexivity].
    destruct (lookup (lit "next") fields) as [[]|]; reflexivity.
  - destruct (lookup (lit "next") fields) as [[]|]; reflexivity.
Qed.

Lemma nth_error_skipn {A} (l : list A) (i : nat) :
  match nth_error l i with
  | Some x => skipn i l = x :: skipn (S i) l
  | None => skipn i l = []
  end.
Proof.
  revert i; induction l as [|a l IH]; intros [|i]; simpl; try reflexivity.
  apply IH.
Qed.

(** With every target known, the loop pairs the labels with the targets,
    index by index, and stops at the shorter of the two. *)
Lemma map_options_combine (story : dict) (targets : list str) :
  (forall t, In t targets -> has_key t story = true) ->
  forall labels idx,
    map_options story targets idx labels
    = map (fun p => choice (fst p) (snd p))
          (combine labels (skipn idx targets)).
Proof.
  intros Hk labels. induction labels as [|l labels IH]; intros idx;
    [reflexivity|].
  cbn [map_options]. pose proof (nth_error_skipn targets idx) as Hs.
  destruct (nth_error targets idx) as [t|] eqn:E.
  - rewrite Hs. cbn [combine map fst snd].
    rewrite (Hk t (nth_error_In _ _ E)), IH. reflexivity.
  - rewrite Hs, IH. cbn [combine map].
    pose proof (nth_error_skipn targets (S idx)) as Hs'.
    destruct (nth_error targets (S idx)) eqn:E'.
    + apply nth_error_None in E.
      assert (nth_error targets (S idx) = None)
        by (apply nth_error_None; lia).
      congruence.
    + rewrite Hs'. now destruct labels.
Qed.

Lemma combine_repeat {A B} (l : list A) (z : B) (n : nat) :
  length l <= n -> combine l (repeat z n) = map (fun a => (a, z)) l.
Proof.
  revert n; induction l as [|a l IH]; intros n Hn; [reflexivity|].
  destruct n as [|n]; simpl in *; [lia|].
  f_equal. apply IH. lia.
Qed.

Lemma known_all_strs (story : dict) (l : list value) :
  forallb (known story) l = true ->
  map VStr (strs_of l) = l
  /\ forall t, In t (strs_of l) -> has_key t story = true.
Proof.
  induction l as [|v l IH]; simpl; [intros _; split; [reflexivity|tauto]|].
  intros H. apply andb_true_iff in H as [Hv Hl].
  destruct (IH Hl) as [IH1 IH2].
  destruct v; try discriminate. simpl. split; [now rewrite IH1|].
  intros t [<-|Ht]; auto.
Qed.

Lemma choice_label (l t : str) :
  py_getitem (choice l t) (lit "label") = Return (VStr l).
Proof. reflexivity. Qed.

Lemma choice_next (l t : str) :
  py_getitem (choice l t) (lit "next") = Return (VStr t).
Proof. reflexivity. Qed.

(** Generated choices on the buttons: the first two, in order. *)
Lemma set_buttons_choices (pairs : list (str * str)) (u : ui) :
  exists u',
    set_buttons (VList (map (fun p => choice (fst p) (snd p)) pairs)) u
    = (u', Return tt)
    /\ box_text u' = box_text u
    /\ status_text u' = status_text u
    /\ dialogs u' = dialogs u
    /\ routes u'
       = on_screen (map (fun p => (fst p, VStr (snd p))) (firstn 2 pairs)).
Proof.
  destruct pairs as [|[l1 t1] [|[l2 t2] rest]]; eexists;
    repeat split.
Qed.

(** The callback [update] on an object node with a string text: the text
    box gets the node's text, the scene and the debug lines; the buttons
    get the mapped choices or, when there is none, the raw labels or the
    Continue choice, leading back to the node. *)
Lemma update_routes (fields : dict) (t : str) (nid scene : str)
    (labels : list str) (pairs : list (str * str)) (u : ui) :
  lookup (lit "text") fields = Some (VStr t) ->
  exists u',
    update (VDict fields) nid scene labels
      (map (fun p => choice (fst p) (snd p)) pairs) u
    = (u', Return tt)
    /\ (exists debug, box_text u' = VStr (t ++ [10; 10]%N ++ scene ++ debug))
    /\ status_text u' = status_text u
    /\ dialogs u' = dialogs u
    /\ routes u'
       = on_screen
           (map (fun p => (fst p, VStr (snd p)))
              match pairs with
              | _ :: _ => firstn 2 pairs
              | [] => match labels with
                      | [] => [(lit "Continue", nid)]
                      | l1 :: more =>
                          (l1, nid) :: match more with
                                       | l2 :: _ => [(l2, nid)]
                                       | [] => []
                                       end
                      end
              end).
Proof.
  intros Ht.
  assert (Hgen : forall dbg : str,
             exists u',
               match map (fun p => choice (fst p) (snd p)) pairs with
               | _ :: _ =>
                   set_buttons
                     (VList (firstn 2
                               (map (fun p => choice (fst p) (snd p)) pairs)))
               | [] =>
                   match labels with
                   | first :: more =>
                       set_buttons
                         (VList (choice first nid
                                 :: match more with
                                    | second :: _ => [choice second nid]
                                    | [] => []
                                    end))
                   | [] => set_buttons (VList [choice (lit "Continue") nid])
                   end
               end (set_box (VStr ((t ++ [10; 10]%N) ++ scene ++ dbg)) u)
               = (u', Return tt)
               /\ (exists debug,
                      box_text u' = VStr (t ++ [10; 10]%N ++ scene ++ debug))
               /\ status_text u' = status_text u
               /\ dialogs u' = dialogs u
               /\ routes u'
                  = on_screen
                      (map (fun p => (fst p, VStr (snd p)))
                         match pairs with
                         | _ :: _ => firstn 2 pairs
                         | [] => match labels with
                                 | [] => [(lit "Continue", nid)]
                                 | l1 :: more =>
                                     (l1, nid) :: match more with
                                                  | l2 :: _ => [(l2, nid)]
                                                  | [] => []
                                                  end
                                 end
                         end)).
  { intros dbg.
    set (u1 := set_box (VStr ((t ++ [10; 10]%N) ++ scene ++ dbg)) u).
    assert (Hfin : forall ps,
               exists u',
                 set_buttons
                   (VList (map (fun p => choice (fst p) (snd p)) ps)) u1
                 = (u', Return tt)
                 /\ (exists debug,
                        box_text u' = VStr (t ++ [10; 10]%N ++ scene ++ debug))
                 /\ status_text u' = status_text u
                 /\ dialogs u' = dialogs u
                 /\ routes u'
                    = on_screen (map (fun p => (fst p, VStr (snd p)))
                                   (firstn 2 ps))).
    { intros ps.
      destruct (set_buttons_choices ps u1) as (u' & E & B & S & D & R).
      exists u'. rewrite B, S, D. repeat split; auto.
      exists dbg. subst u1. cbn [box_text set_box]. now rewrite <- app_assoc. }
    destruct pairs as [|p pairs].
    - destruct labels as [|l1 [|l2 more]].
      + apply (Hfin [(lit "Continue", nid)]).
      + apply (Hfin [(l1, nid)]).
      + apply (Hfin [(l1, nid); (l2, nid)]).
    - destruct (Hfin (firstn 2 (p :: pairs))) as (u' & E & B & S & D & R).
      exists u'. rewrite <- firstn_map in E. cbn [map] in *.
      rewrite E. repeat split; auto.
      rewrite R. now rewrite firstn_firstn. }
  unfold update, bindM, lift, render_text, modify, py_contains.
  rewrite py_get_object. cbn [bind]. unfold py_getitem. rewrite Ht.
  cbn [py_add_str].
  destruct (has_key (lit "next_map") fields);
    destruct (has_key (lit "next") fields); cbv beta iota; apply Hgen.
Qed.

Lemma parse_shape (text scene : str) (labels : list str) :
  parse_scene_and_options_json text = Return (scene, labels) ->
  length labels <= 2 /\ trimmed scene /\ Forall trimmed labels.
Proof.
  unfold parse_scene_and_options_json.
  destruct (decode_with_recovery text) as [data|].
  - apply scene_and_options_shape.
  - intros [= <- <-]. repeat split; simpl; auto.
Qed.

(** When the service answers and the answer parses, the thread posts
    [update] with the mapped choices. *)
Lemma work_success (ai_bridge_json : value -> value -> result str)
    (first : bool) (story : dict) (j : job) (fields : dict) (t : value)
    (out scene : str) (labels : list str) :
  job_node j = VDict fields ->
  lookup (lit "text") fields = Some t ->
  ai_bridge_json t (job_hint j) = Return out ->
  parse_scene_and_options_json out = Return (scene, labels) ->
  work ai_bridge_json first story j
  = update (VDict fields) (job_node_id j) scene labels
      (map_options story
         match lookup (lit "next_map") fields with
         | Some (VList (x :: l)) => strs_of (x :: l)
         | _ => match lookup (lit "next") fields with
                | Some (VStr z) => repeat z (Nat.max 1 (length labels))
                | _ => repeat (job_node_id j) (Nat.max 1 (length labels))
                end
         end 0 labels).
Proof.
  intros Hn Ht Hai Hp. unfold work. rewrite Hn.
  unfold py_getitem. rewrite Ht. cbn [bind]. rewrite Hai. cbn [bind].
  rewrite Hp. cbn [bind]. rewrite targets_of_object. reflexivity.
Qed.

Lemma combine_map_snd {A B C} (f : B -> C) (l : list A) (l' : list B) :
  map (fun p => (fst p, f (snd p))) (combine l l') = combine l (map f l').
Proof.
  revert l'; induction l as [|a l IH]; intros [|b l']; simpl; try reflexivity.
  now rewrite IH.
Qed.

(** On a node whose references are keys of the story, the loop of [work]
    builds exactly the choices of the routing policy. *)
Lemma routed_pairs (story : dict) (fields : dict) (nid : str)
    (labels : list str) :
  refs_ok story (VDict fields) = true ->
  has_key nid story = true ->
  exists pairs,
    map_options story
      match lookup (lit "next_map") fields with
      | Some (VList (x :: l)) => strs_of (x :: l)
      | _ => match lookup (lit "next") fields with
             | Some (VStr z) => repeat z (Nat.max 1 (length labels))
             | _ => repeat nid (Nat.max 1 (length labels))
             end
      end 0 labels
    = map (fun p => choice (fst p) (snd p)) pairs
    /\ map (fun p => (fst p, VStr (snd p))) pairs
       = routing_policy (VDict fields) nid labels.
Proof.
  unfold refs_ok, routing_policy. intros H Hnid.
  apply andb_true_iff in H as [Hm Hx].
  assert (Hrep : forall z, has_key z story = true ->
            exists pairs,
              map_options story (repeat z (Nat.max 1 (length labels))) 0 labels
              = map (fun p => choice (fst p) (snd p)) pairs
              /\ map (fun p => (fst p, VStr (snd p))) pairs
                 = map (fun label => (label, VStr z)) labels).
  { intros z Hz. exists (map (fun label => (label, z)) labels).
    rewrite map_options_combine
      by (intros t' Hin; apply repeat_spec in Hin; now subst).
    cbn [skipn]. rewrite combine_repeat by lia.
    split; [reflexivity|]. rewrite map_map. reflexivity. }
  assert (Hnext :
            exists pairs,
              map_options story
                match lookup (lit "next") fields with
                | Some (VStr z) => repeat z (Nat.max 1 (length labels))
                | _ => repeat nid (Nat.max 1 (length labels))
                end 0 labels
              = map (fun p => choice (fst p) (snd p)) pairs
              /\ map (fun p => (fst p, VStr (snd p))) pairs
                 = match lookup (lit "next") fields with
                   | Some nxt =>
                       if is_none nxt
                       then map (fun label => (label, VStr nid)) labels
                       else map (fun label => (label, nxt)) labels
                   | None => map (fun label => (label, VStr nid)) labels
                   end).
  { destruct (lookup (lit "next") fields) as [[]|]; try discriminate;
      cbn [is_none]; auto. }
  destruct (lookup (lit "next_map") fields) as [[]|]; try discriminate; auto.
  destruct l as [|x l]; auto.
  destruct (known_all_strs story (x :: l) Hm) as [Hs Hk].
  exists (combine labels (strs_of (x :: l))). split.
  - now rewrite map_options_combine.
  - rewrite combine_map_snd, Hs. reflexivity.
Qed.

(** The references of every node of a loaded story are keys of the
    story. *)
Lemma loaded_node_refs_ok (src : source) (story : dict) (nid : str)
    (node : value) :
  load_story src = Return story ->
  lookup nid story = Some node -> refs_ok story node = true.
Proof.
  intros H Hn. apply valid_node_refs_ok.
  apply (load_story_sound src H nid). now apply lookup_In.
Qed.

(** *** The resolution of a hinted node

    [show_node] has started the thread [j] for the node [id], whose text is
    [t]; the thread calls the service with this text and the node's hint. *)
Section HintedNode.

Variable ai_bridge_json : value -> value -> result str.
Variable story : dict.
Variables (id : value) (u0 u1 : ui) (j : job) (t : value).

Hypothesis started : show_node id story u0 = (u1, Return (Some j)).
Hypothesis text_of_node : py_getitem (job_node j) (lit "text") = Return t.

(** The node of the thread is an object of the story with a string text. *)
Lemma hinted_node_object :
  exists fields text,
    job_node j = VDict fields
    /\ t = VStr text
    /\ lookup (lit "text") fields = Some (VStr text)
    /\ has_key (job_node_id j) story = true
    /\ box_text u1 = VStr (text ++ generating)
    /\ routes u1 = [].
Proof.
  destruct (show_node_job _ _ _ started)
    as (nid & fields & t' & _ & Hn & Htext & _ & _ & _ & Hj & Hid & Hb & Hr).
  exists fields, t'. repeat split; auto.
  - rewrite Hj in text_of_node. unfold py_getitem in text_of_node.
    rewrite Htext in text_of_node. now injection text_of_node as <-.
  - rewrite Hid. apply has_key_lookup. eauto.
Qed.

(** C1 -- For a hinted node whose references are keys of the story (as the
    loader guarantees, [loaded_node_refs_ok]), when generation has produced
    labels the buttons show exactly the choices of the routing policy: with
    a non-empty [next_map] the i-th label leads to [next_map[i]] and the
    labels beyond its length are not shown; else, with [next] set, every
    label leads to [next]; else every label leads back to the node. *)
Theorem routing_policy_applied (first : bool) (out scene : str)
    (labels : list str) (u : ui) :
  refs_ok story (job_node j) = true ->
  ai_bridge_json t (job_hint j) = Return out ->
  parse_scene_and_options_json out = Return (scene, labels) ->
  labels <> [] ->
  exists u',
    work ai_bridge_json first story j u = (u', Return tt)
    /\ dialogs u' = dialogs u
    /\ routes u'
       = on_screen (routing_policy (job_node j) (job_node_id j) labels).
Proof.
  intros Hrefs Hai Hp Hl.
  destruct hinted_node_object as (fields & t' & Hj & -> & Htext & Hk & _).
  rewrite Hj in *.
  rewrite (work_success ai_bridge_json first story j Hj Htext Hai Hp).
  destruct (routed_pairs story fields (job_node_id j) labels Hrefs Hk)
    as (pairs & -> & Hpol).
  destruct (update_routes fields (job_node_id j) scene labels pairs u Htext)
    as (u' & E & _ & _ & D & R).
  exists u'. repeat split; auto.
  rewrite R, <- Hpol. f_equal. f_equal.
  destruct (parse_shape _ Hp) as [Hlen _].
  assert (Hpl : length pairs <= 2 /\ pairs <> []).
  { assert (Hlp : length (routing_policy (VDict fields) (job_node_id j) labels)
                  <= 2
                  /\ routing_policy (VDict fields) (job_node_id j) labels
                     <> []).
    { unfold routing_policy.
      assert (forall v : value,
                 length (map (fun label => (label, v)) labels) <= 2
                 /\ map (fun label => (label, v)) labels <> []).
      { intros v. rewrite length_map. split; [lia|].
        destruct labels; [congruence|discriminate]. }
      destruct (lookup (lit "next_map") fields) as [[]|];
        try (destruct (lookup (lit "next") fields) as [nxt|];
             [destruct (is_none nxt)|]; apply H).
      destruct l as [|x l];
        try (destruct (lookup (lit "next") fields) as [nxt|];
             [destruct (is_none nxt)|]; apply H).
      split.
      - rewrite length_combine. lia.
      - destruct labels; [congruence|discriminate]. }
    rewrite <- Hpol in Hlp. rewrite length_map in Hlp.
    destruct Hlp as [? Hne]. split; [lia|].
    intros ->. now apply Hne. }
  destruct Hpl as [Hlen' Hne].
  destruct pairs as [|p1 [|p2 [|p3 rest]]]; try reflexivity;
    [congruence|simpl in Hlen'; lia].
Qed.

(** When the answer parses and no generated option survives the routing
    step, the buttons still offer a way on: with no raw label at all, one
    choice labelled Continue that leads back to the node; with raw labels
    that could not be routed, those labels, each leading back to the
    node. *)
Theorem fallback_choices (first : bool) (out scene : str)
    (labels : list str) (targets : list str) (u : ui) :
  ai_bridge_json t (job_hint j) = Return out ->
  parse_scene_and_options_json out = Return (scene, labels) ->
  targets_of (job_node j) (job_node_id j) labels = Return targets ->
  map_options story targets 0 labels = [] ->
  exists u',
    work ai_bridge_json first story j u = (u', Return tt)
    /\ dialogs u' = dialogs u
    /\ routes u'
       = on_screen
           match labels with
           | [] => [(lit "Continue", VStr (job_node_id j))]
           | _ => map (fun label => (label, VStr (job_node_id j))) labels
           end.
Proof.
  intros Hai Hp Htg Hm.
  destruct hinted_node_object as (fields & t' & Hj & -> & Htext & Hk & _).
  rewrite Hj in *.
  rewrite (work_success ai_bridge_json first story j Hj Htext Hai Hp).
  rewrite targets_of_object in Htg.
  apply (f_equal (fun r => match r with
                           | Return x => x
                           | Raise _ => targets
                           end)) in Htg.
  cbv beta iota in Htg. rewrite Htg, Hm.
  destruct (update_routes fields (job_node_id j) scene labels [] u Htext)
    as (u' & E & _ & _ & D & R).
  exists u'. repeat split; auto.
  rewrite R. f_equal.
  destruct (parse_shape _ Hp) as [Hlen _].
  destruct labels as [|l1 [|l2 [|l3 more]]]; try reflexivity.
  simpl in Hlen; lia.
Qed.

(** C9 -- When generation fails, the text and the buttons stay as
    [show_node] left them (the node's text with the generating notice, no
    button), but no error indication is added: the callback posted by the
    [except] clause reads the exception variable after the clause has
    unbound it, and raises [NameError] instead of opening the dialog.  The
    dialog appears only if the main loop runs the callback before the
    thread has left the clause. *)
Theorem generation_failure_no_dialog (e : exn) :
  ai_bridge_json t (job_hint j) = Raise e ->
  work ai_bridge_json false story j u1 = (u1, Raise NameError)
  /\ (exists text, t = VStr text /\ box_text u1 = VStr (text ++ generating))
  /\ routes u1 = []
  /\ work ai_bridge_json true story j u1
     = (showerror (lit "AI Error") e u1, Return tt).
Proof.
  intros Hai.
  destruct hinted_node_object as (fields & t' & Hj & Ht & _ & _ & Hb & Hr).
  unfold work. rewrite text_of_node. cbn [bind]. rewrite Hai. cbn [bind].
  repeat split; auto.
  exists t'. auto.
Qed.

End HintedNode.

Lemma routing_policy_applied_witness :
  (exists u',
      work answers_two false two_targets (entry_job two_targets) initial_ui
      = (u', Return tt)
      /\ dialogs u' = dialogs initial_ui
      /\ routes u' = on_screen [(lit "A", VStr (lit "b"));
                                (lit "B", VStr (lit "c"))])
  /\ (exists u',
         work answers_two false one_target (entry_job one_target) initial_ui
         = (u', Return tt)
         /\ dialogs u' = dialogs initial_ui
         /\ routes u' = on_screen [(lit "A", VStr (lit "b"))])
  /\ (exists u',
         work answers_two false single_next (entry_job single_next) initial_ui
         = (u', Return tt)
         /\ dialogs u' = dialogs initial_ui
         /\ routes u' = on_screen [(lit "A", VStr (lit "z"));
                                   (lit "B", VStr (lit "z"))])
  /\ (exists u',
         work answers_two false no_route (entry_job no_route) initial_ui
         = (u', Return tt)
         /\ dialogs u' = dialogs initial_ui
         /\ routes u' = on_screen [(lit "A", VStr (lit "start"));
                                   (lit "B", VStr (lit "start"))]).
Proof.
  repeat apply conj;
    match goal with
    | |- exists u', work _ _ ?story _ _ = _ /\ _ =>
        refine (@routing_policy_applied answers_two story
                  (VStr (lit "start")) initial_ui (pending story)
                  (entry_job story) (VStr (lit "T")) _ _ false
                  (quoted "{'scene':'S','options':['A','B']}")
                  (lit "S") [lit "A"; lit "B"] initial_ui _ _ _ _)
    end;
    try (vm_compute; reflexivity); discriminate.
Defined.

Lemma fallback_choices_witness :
  (exists u',
      work answers_garbage false no_route (entry_job no_route) initial_ui
      = (u', Return tt)
      /\ dialogs u' = dialogs initial_ui
      /\ routes u' = on_screen [(lit "Continue", VStr (lit "start"))])
  /\ (exists u',
         work answers_two false lost_target (entry_job lost_target) initial_ui
         = (u', Return tt)
         /\ dialogs u' = dialogs initial_ui
         /\ routes u' = on_screen [(lit "A", VStr (lit "start"));
                                   (lit "B", VStr (lit "start"))]).
Proof.
  split.
  - refine (@fallback_choices answers_garbage no_route
              (VStr (lit "start")) initial_ui (pending no_route)
              (entry_job no_route) (VStr (lit "T")) _ _ false
              (lit "garbage") [] [] [lit "start"] initial_ui _ _ _ _);
      vm_compute; reflexivity.
  - refine (@fallback_choices answers_two lost_target
              (VStr (lit "start")) initial_ui (pending lost_target)
              (entry_job lost_target) (VStr (lit "T")) _ _ false
              (quoted "{'scene':'S','options':['A','B']}")
              (lit "S") [lit "A"; lit "B"] [lit "gone"] initial_ui
              _ _ _ _);
      vm_compute; reflexivity.
Defined.

Lemma generation_failure_no_dialog_witness :
  work times_out false single_next (entry_job single_next)
    (pending single_next)
  = (pending single_next, Raise NameError)
  /\ (exists text,
         VStr (lit "T") = VStr text
         /\ box_text (pending single_next) = VStr (text ++ generating))
  /\ routes (pending single_next) = []
  /\ work times_out true single_next (entry_job single_next)
       (pending single_next)
     = (showerror (lit "AI Error") (ServiceError (lit "timed out"))
          (pending single_next),
        Return tt).
Proof.
  refine (@generation_failure_no_dialog times_out single_next
            (VStr (lit "start")) initial_ui (pending single_next)
            (entry_job single_next) (VStr (lit "T")) _ _
            (ServiceError (lit "timed out")) _);
    vm_compute; reflexivity.
Defined.

(* ================================================================== *)
(** * Further properties *)

(** ** The validator accepts exactly the valid stories *)

Lemma for_each_Forall_Return {A} (body : A -> result unit) (l : list A) :
  (forall x, In x l -> body x = Return tt) -> for_each body l = Return tt.
Proof.
  intros H. apply for_each_Return, Forall_forall. exact H.
Qed.

Lemma option_ok_check (story : dict) (k : str) (opt : value) :
  option_ok story opt = true -> check_option story k opt = Return tt.
Proof.
  destruct opt; try discriminate.
  unfold option_ok, check_option. rewrite py_get_object. cbn [bind].
  destruct (lookup (lit "next") d) as [v|]; [|reflexivity].
  destruct (truthy v); cbn [negb orb]; [|reflexivity].
  destruct v; try discriminate. cbn [known py_in_story bind].
  now intros ->.
Qed.

Lemma known_check_entry (story : dict) (k : str) (t : value) :
  known story t = true -> check_next_map_entry story k t = Return tt.
Proof.
  destruct t; try discriminate. unfold check_next_map_entry.
  cbn [is_str negb known py_in_story bind]. now intros ->.
Qed.

(** A valid object passes the three loops. *)
Lemma valid_node_checks (story : dict) (k : str) (node : value) :
  valid_node story node = true ->
  check_shape (k, node) = Return tt
  /\ check_options story (k, node) = Return tt
  /\ check_routes story (k, node) = Return tt.
Proof.
  destruct node as [| | | | |l|f]; try discriminate.
  unfold valid_node. intros H.
  apply andb_true_iff in H as [H Hrefs].
  apply andb_true_iff in H as [H Hroute].
  apply andb_true_iff in H as [Htext Hopts].
  assert (Hshape : check_shape (k, VDict f) = Return tt).
  { rewrite check_shape_object.
    destruct (lookup (lit "text") f) as [[]|]; try discriminate.
    destruct (lookup (lit "options") f) as [[]|]; try discriminate;
      reflexivity. }
  split; [exact Hshape|split].
  - rewrite (check_options_object story _ _ Hshape).
    destruct (lookup (lit "options") f) as [[]|]; try reflexivity.
    apply for_each_Forall_Return. intros opt Hin.
    apply option_ok_check. rewrite forallb_forall in Hopts. auto.
  - unfold check_routes. rewrite !py_get_object. cbn [bind].
    unfold refs_ok in Hrefs. apply andb_true_iff in Hrefs as [Hm Hx].
    cbv zeta in Hroute.
    replace (if negb (truthy match lookup (lit "options") f with
                             | Some v => v | None => VNone end)
                && truthy match lookup (lit "next_hint") f with
                          | Some v => v | None => VNone end
             then if negb (truthy match lookup (lit "next_map") f with
                                  | Some v => v | None => VNone end)
                     && negb (truthy match lookup (lit "next") f with
                                     | Some v => v | None => VNone end)
                  then Raise (ValueError (HintWithoutRoute k))
                  else Return tt
             else Return tt) with (Return tt).
    2:{ destruct (negb (truthy _) && truthy _); [|reflexivity].
        cbn [negb orb] in Hroute.
        apply orb_true_iff in Hroute as [->| ->]; cbn [negb andb];
          [reflexivity|now rewrite andb_false_r]. }
    cbn [bind].
    replace (if negb (is_none match lookup (lit "next_map") f with
                              | Some v => v | None => VNone end)
             then match match lookup (lit "next_map") f with
                        | Some v => v | None => VNone end with
                  | VList l => for_each (check_next_map_entry story k) l
                  | _ => Raise (ValueError (NextMapNotList k))
                  end
             else Return tt) with (Return tt).
    2:{ destruct (lookup (lit "next_map") f) as [[]|]; try discriminate;
          try reflexivity.
        cbn [is_none negb]. symmetry. apply for_each_Forall_Return.
        intros t Hin. apply known_check_entry.
        rewrite forallb_forall in Hm. auto. }
    cbn [bind].
    destruct (lookup (lit "next") f) as [[]|]; try discriminate;
      try reflexivity.
    cbn [is_none negb py_in_story bind known] in *. now rewrite Hx.
Qed.

(** X1 -- The loader accepts a readable file exactly when its text decodes
    to an object all of whose nodes are valid, and then returns that
    object as it was decoded. *)
Theorem load_story_accepts_iff (text : str) (story : dict) :
  load_story (file text) = Return story
  <-> json_loads text = Some (VDict story)
      /\ forallb (fun item => valid_node story (snd item)) story = true.
Proof.
  split.
  - intros H. pose proof (load_story_sound _ H) as Hs.
    apply load_story_Return in H as (_ & text' & Hr & Hj & _).
    injection Hr as <-. split; [exact Hj|].
    apply forallb_forall. intros [k node] Hin. now apply (Hs k).
  - intros [Hj Hv]. unfold load_story, file. cbn [path_exists read_text negb bind].
    rewrite Hj.
    assert (Hval : validate story = Return tt).
    { rewrite forallb_forall in Hv. unfold validate.
      assert (H3 : forall item, In item story ->
                check_shape item = Return tt
                /\ check_options story item = Return tt
                /\ check_routes story item = Return tt).
      { intros [k node] Hin. apply valid_node_checks.
        now apply (Hv (k, node)). }
      rewrite (for_each_Forall_Return check_shape story)
        by (intros x Hx; now apply H3).
      rewrite (for_each_Forall_Return (check_options story) story)
        by (intros x Hx; now apply H3).
      rewrite (for_each_Forall_Return (check_routes story) story)
        by (intros x Hx; now apply H3).
      reflexivity. }
    now rewrite Hval.
Qed.

Lemma load_story_accepts_iff_witness :
  load_story (file (quoted
    "{'start': {'text': 'T', 'next_hint': 'h', 'next': 'z'}, 'z': {'text': 'Z'}}"))
  = Return single_next.
Proof.
  apply (proj2 (load_story_accepts_iff _ single_next)).
  split; vm_compute; reflexivity.
Defined.

(** A loop stops at the first item whose body raises. *)
Lemma for_each_first {A} (body : A -> result unit) (pre post : list A)
    (x : A) (e : exn) :
  for_each body pre = Return tt -> body x = Raise e ->
  for_each body (pre ++ x :: post) = Raise e.
Proof.
  induction pre as [|y pre IH]; simpl; intros Hpre Hx.
  - now rewrite Hx.
  - apply bind_unit_Return in Hpre as [Hy Hpre]. rewrite Hy. cbn [bind].
    now apply IH.
Qed.

(** X2 -- Validation reports one violation, chosen by loop and then by
    file order: the first node that fails the shape check of the first
    loop wins over every reference problem of the story, and, when all
    shapes are right, the first node with a dangling authored option wins
    over every problem of the third loop. *)
Theorem validate_reports_first (story pre post : dict) (item : str * value)
    (e : exn) :
  story = pre ++ item :: post ->
  (for_each check_shape pre = Return tt ->
   check_shape item = Raise e -> validate story = Raise e)
  /\ (for_each check_shape story = Return tt ->
      for_each (check_options story) pre = Return tt ->
      check_options story item = Raise e -> validate story = Raise e).
Proof.
  intros Hs. unfold validate. split.
  - intros Hpre Hx. rewrite Hs at 1.
    now rewrite (for_each_first check_shape pre post item Hpre Hx).
  - intros Hshape Hpre Hx. rewrite Hshape. cbn [bind]. rewrite Hs at 2.
    now rewrite (for_each_first (check_options story) pre post item Hpre Hx).
Qed.

Lemma validate_reports_first_witness :
  validate [(lit "a", VDict [(lit "text", VStr (lit "t"));
                             (lit "next", VStr (lit "gone"))]);
            (lit "b", VDict [(lit "next_map", VInt 3)])]
  = Raise (ValueError (NodeTextNotString (lit "b"))).
Proof.
  refine (proj1 (@validate_reports_first _
                   [(lit "a", VDict [(lit "text", VStr (lit "t"));
                                     (lit "next", VStr (lit "gone"))])]
                   [] (lit "b", VDict [(lit "next_map", VInt 3)])
                   (ValueError (NodeTextNotString (lit "b"))) _) _ _);
    vm_compute; reflexivity.
Defined.

(** X3 -- In a loaded story every node is an object, and what it refers to
    exists: every entry of its [next_map], its [next] unless that is
    [None], and the [next] of each authored option unless that is falsy
    are keys of the story. *)
Theorem loaded_references_exist (src : source) (story : dict) (nid : str)
    (node : value) :
  load_story src = Return story ->
  In (nid, node) story ->
  exists fields,
    node = VDict fields
    /\ (forall l t, lookup (lit "next_map") fields = Some (VList l) ->
                    In t l -> known story t = true)
    /\ (forall v, lookup (lit "next") fields = Some v -> v <> VNone ->
                  known story v = true)
    /\ (forall opts o v,
           lookup (lit "options") fields = Some (VList opts) -> In o opts ->
           py_get o (lit "next") VNone = Return v -> truthy v = true ->
           known story v = true).
Proof.
  intros H Hin. pose proof (load_story_sound _ H _ _ Hin) as Hv.
  destruct node as [| | | | |l|fields]; try discriminate.
  exists fields. split; [reflexivity|].
  unfold valid_node in Hv.
  apply andb_true_iff in Hv as [Hv Hrefs].
  apply andb_true_iff in Hv as [Hv _].
  apply andb_true_iff in Hv as [_ Hopts].
  unfold refs_ok in Hrefs. apply andb_true_iff in Hrefs as [Hm Hx].
  repeat split.
  - intros l t Hl Ht. rewrite Hl in Hm. rewrite forallb_forall in Hm. auto.
  - intros v Hl Hn. rewrite Hl in Hx. destruct v; auto; congruence.
  - intros opts o v Hl Ho Hg Ht. rewrite Hl in Hopts.
    rewrite forallb_forall in Hopts. specialize (Hopts o Ho).
    destruct o; try discriminate. unfold option_ok in Hopts.
    rewrite py_get_object in Hg.
    destruct (lookup (lit "next") d) as [v'|].
    + injection Hg as <-. rewrite Ht in Hopts. exact Hopts.
    + injection Hg as <-. discriminate.
Qed.

Lemma loaded_references_exist_witness :
  exists fields,
    hinted [(lit "next_map", VList [VStr (lit "b"); VStr (lit "c")])]
    = VDict fields
    /\ (forall l t, lookup (lit "next_map") fields = Some (VList l) ->
                    In t l -> known two_targets t = true)
    /\ (forall v, lookup (lit "next") fields = Some v -> v <> VNone ->
                  known two_targets v = true)
    /\ (forall opts o v,
           lookup (lit "options") fields = Some (VList opts) -> In o opts ->
           py_get o (lit "next") VNone = Return v -> truthy v = true ->
           known two_targets v = true).
Proof.
  refine (@loaded_references_exist
            (file (quoted
               "{'start': {'text': 'T', 'next_hint': 'h', 'next_map': ['b', 'c']}, 'b': {'text': 'B'}, 'c': {'text': 'C'}}"))
            two_targets (lit "start") _ _ _).
  - vm_compute. reflexivity.
  - left. reflexivity.
Defined.

(** ** Hinted nodes of a loaded story *)

Lemma combine_nil_iff {A B} (l : list A) (l' : list B) :
  l' <> [] -> (combine l l' = [] <-> l = []).
Proof.
  intros H. destruct l as [|a l]; [split; reflexivity|].
  destruct l' as [|b l']; [congruence|]. split; discriminate.
Qed.

(** X4 -- For a hinted node of a loaded story the thread always finds
    targets that are keys of the story, taken from a non-empty [next_map]
    or else from [next], never the node itself for want of a route; so the
    loop of [work] leaves no choice only when no label was parsed. *)
Theorem loaded_hinted_node_routed (src : source) (story : dict) (id : value)
    (u0 u1 : ui) (j : job) (labels : list str) :
  load_story src = Return story ->
  show_node id story u0 = (u1, Return (Some j)) ->
  exists fields targets,
    job_node j = VDict fields
    /\ targets_of (job_node j) (job_node_id j) labels = Return targets
    /\ targets <> []
    /\ (forall t, In t targets -> has_key t story = true)
    /\ ((exists x l, lookup (lit "next_map") fields = Some (VList (x :: l))
                     /\ map VStr targets = x :: l)
        \/ (exists z, lookup (lit "next") fields = Some (VStr z)
                      /\ targets = repeat z (Nat.max 1 (length labels))))
    /\ (map_options story targets 0 labels = [] <-> labels = []).
Proof.
  intros Hload Hs.
  apply show_node_job in Hs
    as (nid & fields & t' & _ & Hn & _ & Ho & Hh & Hhint & Hj & Hid & _).
  pose proof (load_story_sound _ Hload _ _ (lookup_In _ _ Hn)) as Hv.
  unfold valid_node in Hv.
  apply andb_true_iff in Hv as [Hv Hrefs].
  apply andb_true_iff in Hv as [_ Hroute]. cbv zeta in Hroute.
  assert (Hopts : truthy match lookup (lit "options") fields with
                         | Some v => v | None => VNone end = false)
    by (destruct (lookup (lit "options") fields); [exact Ho|reflexivity]).
  assert (Hhint' : truthy match lookup (lit "next_hint") fields with
                          | Some v => v | None => VNone end = true).
  { rewrite Hhint in Hh.
    destruct (lookup (lit "next_hint") fields); [exact Hh|discriminate]. }
  rewrite Hopts, Hhint' in Hroute. cbn [negb andb orb] in Hroute.
  unfold refs_ok in Hrefs. apply andb_true_iff in Hrefs as [Hm Hx].
  assert (Hcases :
            exists targets,
              match lookup (lit "next_map") fields with
              | Some (VList (x :: l)) => strs_of (x :: l)
              | _ => match lookup (lit "next") fields with
                     | Some (VStr z) => repeat z (Nat.max 1 (length labels))
                     | _ => repeat nid (Nat.max 1 (length labels))
                     end
              end = targets
              /\ targets <> []
              /\ (forall t, In t targets -> has_key t story = true)
              /\ ((exists x l,
                      lookup (lit "next_map") fields = Some (VList (x :: l))
                      /\ map VStr targets = x :: l)
                  \/ (exists z,
                         lookup (lit "next") fields = Some (VStr z)
                         /\ targets = repeat z (Nat.max 1 (length labels))))).
  { assert (Hnext :
              truthy match lookup (lit "next") fields with
                     | Some v => v | None => VNone end = true ->
              exists targets,
                match lookup (lit "next") fields with
                | Some (VStr z) => repeat z (Nat.max 1 (length labels))
                | _ => repeat nid (Nat.max 1 (length labels))
                end = targets
                /\ targets <> []
                /\ (forall t, In t targets -> has_key t story = true)
                /\ ((exists x l,
                        lookup (lit "next_map") fields = Some (VList (x :: l))
                        /\ map VStr targets = x :: l)
                    \/ (exists z,
                           lookup (lit "next") fields = Some (VStr z)
                           /\ targets
                              = repeat z (Nat.max 1 (length labels))))).
    { destruct (lookup (lit "next") fields) as [[]|]; try discriminate.
      intros _. eexists. split; [reflexivity|]. repeat split.
      - destruct (length labels); discriminate.
      - intros t Ht. apply repeat_spec in Ht. now subst.
      - right. eauto. }
    destruct (lookup (lit "next_map") fields) as [[]|] eqn:Em;
      try discriminate; cbn [truthy orb] in Hroute; auto.
    destruct l as [|x l]; [auto|].
    destruct (known_all_strs story (x :: l) Hm) as [Hs Hk].
    exists (strs_of (x :: l)). repeat split; auto.
    - intros E. rewrite E in Hs. discriminate.
    - left. eauto. }
  destruct Hcases as (targets & Ht & Hne & Hk & Hor).
  exists fields, targets. rewrite Hj, Hid, targets_of_object, Ht.
  repeat split; auto.
  - rewrite map_options_combine by exact Hk. cbn [skipn].
    intros H. apply map_eq_nil in H. now apply combine_nil_iff in H.
  - intros ->. reflexivity.
Qed.

Lemma loaded_hinted_node_routed_witness :
  exists fields targets,
    job_node (entry_job one_target) = VDict fields
    /\ targets_of (job_node (entry_job one_target))
         (job_node_id (entry_job one_target)) [lit "A"; lit "B"]
       = Return targets
    /\ targets <> []
    /\ (forall t, In t targets -> has_key t one_target = true)
    /\ ((exists x l, lookup (lit "next_map") fields = Some (VList (x :: l))
                     /\ map VStr targets = x :: l)
        \/ (exists z, lookup (lit "next") fields = Some (VStr z)
                      /\ targets
                         = repeat z (Nat.max 1 (length [lit "A"; lit "B"]))))
    /\ (map_options one_target targets 0 [lit "A"; lit "B"] = []
        <-> [lit "A"; lit "B"] = []).
Proof.
  refine (@loaded_hinted_node_routed
            (file (quoted
               "{'start': {'text': 'T', 'next_hint': 'h', 'next_map': ['b'], 'next': 'z'}, 'b': {'text': 'B'}, 'z': {'text': 'Z'}}"))
            one_target (VStr (lit "start")) initial_ui (pending one_target)
            (entry_job one_target) [lit "A"; lit "B"] _ _);
    vm_compute; reflexivity.
Defined.

(** ** Recovery of an object embedded in other text *)

Lemma from_first_open_skip (pre r : str) :
  ~ In 123%N pre -> from_first_open (pre ++ 123%N :: r) = Some r.
Proof.
  induction pre as [|c pre IH]; simpl; intros H; [reflexivity|].
  destruct (c =? 123)%N eqn:E.
  - apply N.eqb_eq in E. exfalso. apply H. now left.
  - apply IH. intros Hin. apply H. now right.
Qed.

Lemma upto_last_close_absent (r : str) :
  ~ In 125%N r -> upto_last_close r = None.
Proof.
  induction r as [|c r IH]; simpl; intros H; [reflexivity|].
  rewrite IH by (intros Hin; apply H; now right).
  destruct (c =? 125)%N eqn:E; [|reflexivity].
  apply N.eqb_eq in E. exfalso. apply H. now left.
Qed.

Lemma upto_last_close_last (body post : str) :
  ~ In 125%N post ->
  upto_last_close (body ++ 125%N :: post) = Some (body ++ [125%N]).
Proof.
  intros H. induction body as [|c body IH]; simpl.
  - now rewrite (upto_last_close_absent post H).
  - now rewrite IH.
Qed.

(** X5 -- An object that the service wraps in other text is still read:
    when the text before it has no opening brace and the text after it no
    closing brace, and the whole does not decode, the parser returns what
    it returns for the object alone. *)
Theorem parse_recovers_embedded (pre body post : str) (data : value) :
  ~ In 123%N pre -> ~ In 125%N post ->
  json_loads (pre ++ (123%N :: body ++ [125%N]) ++ post) = None ->
  json_loads (123%N :: body ++ [125%N]) = Some data ->
  search_object (pre ++ (123%N :: body ++ [125%N]) ++ post)
  = Some (123%N :: body ++ [125%N])
  /\ parse_scene_and_options_json (pre ++ (123%N :: body ++ [125%N]) ++ post)
     = parse_scene_and_options_json (123%N :: body ++ [125%N]).
Proof.
  intros Hpre Hpost Hwhole Hobj.
  assert (Hs : search_object (pre ++ (123%N :: body ++ [125%N]) ++ post)
               = Some (123%N :: body ++ [125%N])).
  { assert (E : pre ++ (123%N :: body ++ [125%N]) ++ post
                = pre ++ 123%N :: body ++ 125%N :: post)
      by (cbn [app]; now rewrite <- app_assoc).
    rewrite E. unfold search_object.
    rewrite (from_first_open_skip pre _ Hpre).
    now rewrite (upto_last_close_last body post Hpost). }
  split; [exact Hs|].
  unfold parse_scene_and_options_json, decode_with_recovery.
  now rewrite Hwhole, Hs, Hobj.
Qed.

Lemma parse_recovers_embedded_witness :
  search_object (quoted "noise {'scene':'S','options':['A','B']} trailing")
  = Some (quoted "{'scene':'S','options':['A','B']}")
  /\ parse_scene_and_options_json
       (quoted "noise {'scene':'S','options':['A','B']} trailing")
     = parse_scene_and_options_json
         (quoted "{'scene':'S','options':['A','B']}").
Proof.
  refine (@parse_recovers_embedded (lit "noise ")
            (quoted "'scene':'S','options':['A','B']") (lit " trailing")
            (VDict [(lit "scene", VStr (lit "S"));
                    (lit "options", VList [VStr (lit "A"); VStr (lit "B")])])
            _ _ _ _);
    try (vm_compute; reflexivity);
    vm_compute; intuition discriminate.
Defined.

(** ** What the resolver leaves alone *)

(** [set_buttons] touches the two buttons only, whether it returns or
    raises. *)
Lemma set_buttons_frame (opts : value) (u : ui) :
  box_text (fst (set_buttons opts u)) = box_text u
  /\ status_text (fst (set_buttons opts u)) = status_text u
  /\ dialogs (fst (set_buttons opts u)) = dialogs u.
Proof.
  unfold set_buttons, bindM, lift, modify.
  destruct (py_len opts) as [n|]; [|repeat split].
  destruct (1 <=? n);
    [destruct (py_index opts 0) as [o|]; [|repeat split];
     destruct (py_getitem o (lit "label")); [|repeat split]|];
    (destruct (2 <=? n);
     [destruct (py_index opts 1) as [o'|]; [|repeat split];
      destruct (py_getitem o' (lit "label")); repeat split
     |repeat split]).
Qed.

Lemma show_node_dialogs (id : value) (story : dict) (u : ui) :
  dialogs (fst (show_node id story u)) = dialogs u.
Proof.
  unfold show_node, render_text, bindM, lift, modify, ret.
  destruct (story_getitem story id) as [[nid node]|]; [|reflexivity].
  destruct (py_get node (lit "options") (VList [])) as [opts|];
    [|reflexivity].
  destruct (truthy opts).
  - destruct (py_getitem node (lit "text")) as [t|]; [|reflexivity].
    match goal with
    | |- context [set_buttons ?o ?w] =>
        pose proof (set_buttons_frame o w) as (_ & _ & D);
        destruct (set_buttons o w) as [u' [[]|]]
    end; exact D.
  - destruct (py_get node (lit "next_hint") (VStr [])) as [hint|];
      [|reflexivity].
    destruct (truthy hint); cbn [negb].
    + destruct (py_getitem node (lit "text")) as [t|]; [|reflexivity].
      destruct (py_add_str t generating); reflexivity.
    + destruct (py_getitem node (lit "text")) as [t|]; [|reflexivity].
      match goal with
      | |- context [set_buttons ?o ?w] =>
          pose proof (set_buttons_frame o w) as (_ & _ & D);
          destruct (set_buttons o w) as [u' [[]|]]
      end; exact D.
Qed.

(** X6 -- Showing a node, pressing a button and applying a generated scene
    never open an error dialog, whatever the story and whether they return
    or raise; applying a generated scene leaves the status line alone too.
    Dialogs come from the failed load and from the error callback only. *)
Theorem navigation_opens_no_dialog :
  (forall id story u, dialogs (fst (show_node id story u)) = dialogs u)
  /\ (forall b story u, dialogs (fst (press b story u)) = dialogs u)
  /\ (forall node node_id scene ai_opts mapped u,
         dialogs (fst (update node node_id scene ai_opts mapped u))
         = dialogs u
         /\ status_text (fst (update node node_id scene ai_opts mapped u))
            = status_text u).
Proof.
  repeat apply conj.
  - apply show_node_dialogs.
  - intros b story u. unfold press.
    destruct (target_of (btn_command b)) as [r|]; [|reflexivity].
    unfold bindM, lift. destruct r as [target|]; [|reflexivity].
    apply show_node_dialogs.
  - intros node node_id scene ai_opts mapped u.
    unfold update, render_text, bindM, lift, modify.
    match goal with
    | |- context [match ?r with Return a => _ | Raise e => (u, Raise e) end] =>
        destruct r as [empty_map|]
    end; [|split; reflexivity].
    match goal with
    | |- context [match ?r with Return a => _ | Raise e => (u, Raise e) end] =>
        destruct r as [no_route|]
    end; [|split; reflexivity].
    destruct (py_getitem node (lit "text")) as [t|]; [|split; reflexivity].
    destruct (py_add_str t [10%N; 10%N]) as [t1|]; [|split; reflexivity].
    match goal with
    | |- context [set_box ?x u] => set (u1 := set_box x u)
    end.
    assert (H : forall o,
               dialogs (fst (set_buttons o u1)) = dialogs u
               /\ status_text (fst (set_buttons o u1)) = status_text u).
    { intros o. destruct (set_buttons_frame o u1) as (_ & S & D).
      now rewrite S, D. }
    destruct mapped; [destruct ai_opts|]; apply H.
Qed.

(** ** The three ways a node is shown, and how showing fails *)

(** X7 -- A node with no options to show, a hint and a string text is
    handed to a generation thread: the status line names the node, the box
    shows the text followed by the generating notice, both buttons are
    hidden while the thread runs, and the thread carries the node, its
    identifier and its hint. *)
Theorem hinted_node_pending (story : dict) (nid : str) (fields : dict)
    (hint : value) (t : str) (u : ui) :
  lookup nid story = Some (VDict fields) ->
  match lookup (lit "options") fields with
  | Some opts => truthy opts = false
  | None => True
  end ->
  lookup (lit "next_hint") fields = Some hint ->
  truthy hint = true ->
  lookup (lit "text") fields = Some (VStr t) ->
  exists u',
    show_node (VStr nid) story u
    = (u', Return (Some {| job_node_id := nid; job_node := VDict fields;
                           job_hint := hint |}))
    /\ status_text u' = lit "Node: " ++ nid
    /\ box_text u' = VStr (t ++ generating)
    /\ routes u' = []
    /\ dialogs u' = dialogs u.
Proof.
  intros Hn Ho Hh Hth Ht.
  unfold show_node, render_text, bindM, lift, modify, ret, story_getitem.
  rewrite Hn, !py_get_object, Hh, Hth. unfold py_getitem. rewrite Ht.
  cbn [negb py_add_str].
  destruct (lookup (lit "options") fields) as [opts|];
    [rewrite Ho|cbn [truthy]]; eexists; repeat split.
Qed.

Lemma hinted_node_pending_witness :
  exists u',
    show_node (VStr (lit "start")) single_next initial_ui
    = (u', Return (Some (entry_job single_next)))
    /\ status_text u' = lit "Node: " ++ lit "start"
    /\ box_text u' = VStr (lit "T" ++ generating)
    /\ routes u' = []
    /\ dialogs u' = dialogs initial_ui.
Proof.
  refine (@hinted_node_pending single_next (lit "start")
            [(lit "text", VStr (lit "T")); (lit "next_hint", VStr (lit "h"));
             (lit "next", VStr (lit "z"))]
            (VStr (lit "h")) (lit "T") initial_ui _ _ _ _ _);
    vm_compute; auto.
Defined.

(** X8 -- The loader does not ask authored options for a label, and showing
    a node whose first option is an object without one fails: the status
    line and the text are already replaced, the buttons are as they were,
    [KeyError] is raised and no thread is started. *)
Theorem unlabelled_option_fails (story : dict) (nid : str) (fields o : dict)
    (rest : list value) (t : value) (u : ui) :
  lookup nid story = Some (VDict fields) ->
  lookup (lit "options") fields = Some (VList (VDict o :: rest)) ->
  lookup (lit "label") o = None ->
  lookup (lit "text") fields = Some t ->
  show_node (VStr nid) story u
  = (set_box t (set_status (lit "Node: " ++ nid) u),
     Raise (KeyError (VStr (lit "label")))).
Proof.
  intros Hn Ho Hl Ht.
  unfold show_node, render_text, bindM, lift, modify, ret, story_getitem.
  rewrite Hn, py_get_object, Ho. cbn [truthy]. unfold py_getitem at 1.
  rewrite Ht.
  unfold set_buttons, bindM, lift, modify.
  cbn [py_len length Nat.leb py_index nth_error]. unfold py_getitem.
  now rewrite Hl.
Qed.

Lemma unlabelled_option_fails_witness :
  load_story (file (quoted "{'start': {'text': 'T', 'options': [{}]}}"))
  = Return bare_option
  /\ show_node (VStr (lit "start")) bare_option initial_ui
     = (set_box (VStr (lit "T"))
          (set_status (lit "Node: " ++ lit "start") initial_ui),
        Raise (KeyError (VStr (lit "label")))).
Proof.
  split; [vm_compute; reflexivity|].
  refine (@unlabelled_option_fails bare_option (lit "start")
            bare_option_fields [] [] (VStr (lit "T")) initial_ui _ _ _ _);
    vm_compute; reflexivity.
Defined.

(** X9 -- Pressing a button whose option has no [next], or whose [next]
    is a string that is no key of the story, raises [KeyError] (for the
    missing field, or for the missing node) and leaves the whole window as
    it was; pressing one whose [next] is a key shows that node. *)
Theorem press_follows_next (b : button) (opts : list value) (idx : nat)
    (o : dict) (story : dict) (u : ui) :
  btn_command b = Navigate (VList opts) idx ->
  nth_error opts idx = Some (VDict o) ->
  match lookup (lit "next") o with
  | None => press b story u = (u, Raise (KeyError (VStr (lit "next"))))
  | Some (VStr k) =>
      match lookup k story with
      | None => press b story u = (u, Raise (KeyError (VStr k)))
      | Some _ => press b story u = show_node (VStr k) story u
      end
  | Some target => press b story u = show_node target story u
  end.
Proof.
  intros Hc Hn. unfold press, target_of. rewrite Hc.
  unfold bindM, lift, py_index. rewrite Hn. cbn [bind]. unfold py_getitem.
  destruct (lookup (lit "next") o) as [target|]; [|reflexivity].
  destruct target; try reflexivity.
  destruct (lookup s story) eqn:Ek; [reflexivity|].
  unfold show_node, bindM, lift, story_getitem. now rewrite Ek.
Qed.

Lemma press_follows_next_witness :
  press {| btn_text := VStr (lit "x");
           btn_command := Navigate (VList [VDict []]) 0;
           btn_packed := true |} bare_option initial_ui
  = (initial_ui, Raise (KeyError (VStr (lit "next")))).
Proof.
  refine (@press_follows_next _ [VDict []] 0 [] bare_option initial_ui _ _);
    reflexivity.
Defined.

(** ** After generation *)

(** Whatever the targets, the loop keeps only choices for parsed labels
    that lead to keys of the story. *)
Lemma map_options_known (story : dict) (targets : list str)
    (labels : list str) :
  forall idx,
    exists pairs,
      map_options story targets idx labels
      = map (fun p => choice (fst p) (snd p)) pairs
      /\ Forall (fun p => has_key (snd p) story = true /\ In (fst p) labels)
           pairs.
Proof.
  induction labels as [|l labels IH]; intros idx.
  - exists []. split; [reflexivity|constructor].
  - destruct (IH (S idx)) as (pairs & E & F).
    assert (F' : Forall (fun p => has_key (snd p) story = true
                                  /\ In (fst p) (l :: labels)) pairs).
    { eapply Forall_impl; [|exact F]. intros p [? ?]. split; [|right]; auto. }
    cbn [map_options].
    destruct (nth_error targets idx) as [t|]; [|exists pairs; auto].
    destruct (has_key t story) eqn:Ek; [|exists pairs; auto].
    exists ((l, t) :: pairs). split; [cbn [map fst snd]; now rewrite E|].
    constructor; [split; [exact Ek|now left]|exact F'].
Qed.

Section AfterGeneration.

Variable ai_bridge_json : value -> value -> result str.
Variable story : dict.
Variables (id : value) (u0 u1 : ui) (j : job) (t : value).

Hypothesis started : show_node id story u0 = (u1, Return (Some j)).
Hypothesis text_of_node : py_getitem (job_node j) (lit "text") = Return t.

(** X10 -- Whatever the story, when the service answers and the answer
    parses, the callback returns and leaves one or two buttons on screen;
    each carries a parsed label, or Continue when there is none, and leads
    to a key of the story. *)
Theorem generation_offers_choices (first : bool) (out scene : str)
    (labels : list str) (u : ui) :
  ai_bridge_json t (job_hint j) = Return out ->
  parse_scene_and_options_json out = Return (scene, labels) ->
  exists u',
    work ai_bridge_json first story j u = (u', Return tt)
    /\ 1 <= length (routes u') <= 2
    /\ forall label target,
         In (label, target) (routes u') ->
         exists l k,
           label = VStr l /\ target = Some (Return (VStr k))
           /\ has_key k story = true
           /\ (In l labels \/ (labels = [] /\ l = lit "Continue")).
Proof.
  intros Hai Hp.
  destruct (@hinted_node_object story id u0 u1 j t started text_of_node)
    as (fields & t' & Hj & Ht & Htext & Hk & _).
  subst t.
  rewrite (work_success ai_bridge_json first story j Hj Htext Hai Hp).
  match goal with
  | |- context [map_options story ?ts 0 labels] =>
      destruct (map_options_known story ts labels 0) as (pairs & -> & F)
  end.
  destruct (update_routes fields (job_node_id j) scene labels pairs u Htext)
    as (u' & E & _ & _ & _ & R).
  exists u'. split; [exact E|]. rewrite R.
  set (shown := match pairs with
                | _ :: _ => firstn 2 pairs
                | [] => match labels with
                        | [] => [(lit "Continue", job_node_id j)]
                        | l1 :: more =>
                            (l1, job_node_id j)
                            :: match more with
                               | l2 :: _ => [(l2, job_node_id j)]
                               | [] => []
                               end
                        end
                end).
  assert (Hshown : 1 <= length shown <= 2
                   /\ Forall (fun p => has_key (snd p) story = true
                                       /\ (In (fst p) labels
                                           \/ (labels = []
                                               /\ fst p = lit "Continue")))
                        shown).
  { subst shown. destruct pairs as [|p1 [|p2 rest]].
    - destruct labels as [|l1 [|l2 more]]; split; cbn [length]; try lia;
        repeat match goal with
               | |- Forall _ _ => constructor
               end;
        cbn [fst snd In]; (split; [exact Hk|auto]).
    - split; [cbn; lia|]. inversion F; subst.
      repeat constructor; tauto.
    - split; [cbn; lia|]. inversion F as [|? ? H1 F1]; subst.
      inversion F1; subst. repeat constructor; tauto. }
  destruct Hshown as [Hlen Hall]. unfold on_screen. rewrite !length_map.
  split; [exact Hlen|].
  intros label target Hin. rewrite map_map in Hin.
  apply in_map_iff in Hin as (p & Hp' & Hin).
  rewrite Forall_forall in Hall. destruct (Hall p Hin) as [Hkey Hl].
  cbn [fst snd] in Hp'. injection Hp' as <- <-.
  exists (fst p), (snd p). auto.
Qed.

(** X11 -- An answer that is valid JSON but not an object does not degrade
    to the Continue choice: the parser's [AttributeError] is caught like a
    failure of the service, so the window gets the error callback (the
    dialog titled AI Error, or [NameError] once the exception variable is
    unbound) and keeps its text and buttons. *)
Theorem non_object_answer_is_failure (out : str) (data : value) (u : ui) :
  ai_bridge_json t (job_hint j) = Return out ->
  decode_with_recovery out = Some data ->
  (forall d, data <> VDict d) ->
  work ai_bridge_json true story j u
  = (showerror (lit "AI Error") AttributeError u, Return tt)
  /\ work ai_bridge_json false story j u = (u, Raise NameError).
Proof.
  intros Hai Hd Hn.
  assert (Hp : parse_scene_and_options_json out = Raise AttributeError).
  { unfold parse_scene_and_options_json. rewrite Hd.
    now apply scene_and_options_not_dict. }
  unfold work. rewrite text_of_node. cbn [bind]. rewrite Hai. cbn [bind].
  rewrite Hp. cbn [bind]. split; reflexivity.
Qed.

End AfterGeneration.

Lemma generation_offers_choices_witness :
  exists u',
    work answers_two false lost_target (entry_job lost_target) initial_ui
    = (u', Return tt)
    /\ 1 <= length (routes u') <= 2
    /\ forall label target,
         In (label, target) (routes u') ->
         exists l k,
           label = VStr l /\ target = Some (Return (VStr k))
           /\ has_key k lost_target = true
           /\ (In l [lit "A"; lit "B"]
               \/ ([lit "A"; lit "B"] = [] /\ l = lit "Continue")).
Proof.
  refine (@generation_offers_choices answers_two lost_target
            (VStr (lit "start")) initial_ui (pending lost_target)
            (entry_job lost_target) (VStr (lit "T")) _ _ false
            (quoted "{'scene':'S','options':['A','B']}")
            (lit "S") [lit "A"; lit "B"] initial_ui _ _);
    vm_compute; reflexivity.
Defined.

Lemma non_object_answer_is_failure_witness :
  work (fun _ _ => Return (lit "[1, 2]")) true single_next
    (entry_job single_next) (pending single_next)
  = (showerror (lit "AI Error") AttributeError (pending single_next),
     Return tt)
  /\ work (fun _ _ => Return (lit "[1, 2]")) false single_next
       (entry_job single_next) (pending single_next)
     = (pending single_next, Raise NameError).
Proof.
  refine (@non_object_answer_is_failure (fun _ _ => Return (lit "[1, 2]"))
            single_next (entry_job single_next) (VStr (lit "T")) _
            (lit "[1, 2]") (VList [VInt 1; VInt 2]) (pending single_next)
            _ _ _);
    try (vm_compute; reflexivity).
  intros d H. discriminate.
Defined.

(** The text [update] puts in the box for an object node with a string
    text: the node's text, a blank line, the scene, and one line for each
    debug note that applies. *)
Lemma update_box (fields : dict) (t nid scene : str) (labels : list str)
    (mapped : list value) (u : ui) :
  lookup (lit "text") fields = Some (VStr t) ->
  box_text (fst (update (VDict fields) nid scene labels mapped u))
  = VStr ((t ++ [10; 10]%N) ++ scene
          ++ concat
               (map (fun d => 10%N :: d)
                  ((match labels with [] => [debug_no_options] | _ => [] end)
                   ++ (if has_key (lit "next_map") fields
                          && negb (truthy match lookup (lit "next_map") fields
                                          with Some v => v | None => VNone end)
                       then [debug_empty_map] else [])
                   ++ (if negb (has_key (lit "next") fields)
                          && negb (has_key (lit "next_map") fields)
                       then [debug_loopback] else [])))).
Proof.
  intros Ht.
  unfold update, bindM, lift, render_text, modify, py_contains.
  rewrite py_get_object. cbn [bind]. unfold py_getitem. rewrite Ht.
  cbn [py_add_str].
  destruct (has_key (lit "next_map") fields);
    destruct (has_key (lit "next") fields); cbv beta iota;
    cbn [negb andb];
    match goal with
    | |- box_text (fst (?f (set_box ?x u))) = _ =>
        assert (H : forall o, box_text (fst (set_buttons o (set_box x u))) = x)
          by (intros o;
              destruct (set_buttons_frame o (set_box x u)) as (B & _);
              exact B)
    end;
    (destruct mapped; [destruct labels|]; apply H).
Qed.

Section GeneratedText.

Variable ai_bridge_json : value -> value -> result str.
Variable story : dict.
Variables (id : value) (u0 u1 : ui) (j : job) (t : value).

Hypothesis started : show_node id story u0 = (u1, Return (Some j)).
Hypothesis text_of_node : py_getitem (job_node j) (lit "text") = Return t.

(** X12 -- After a generation that parses, the box shows the node's text,
    a blank line and the scene, followed by debug notes; there is no note
    exactly when a label was parsed, the node's [next_map], if present, is
    not empty, and the node has a [next] or a [next_map] key. *)
Theorem generated_text_shown (first : bool) (out scene : str)
    (labels : list str) (u : ui) :
  ai_bridge_json t (job_hint j) = Return out ->
  parse_scene_and_options_json out = Return (scene, labels) ->
  exists text fields notes,
    t = VStr text
    /\ job_node j = VDict fields
    /\ box_text (fst (work ai_bridge_json first story j u))
       = VStr (text ++ [10; 10]%N ++ scene ++ notes)
    /\ (notes = []
        <-> labels <> []
            /\ (has_key (lit "next_map") fields = true ->
                truthy match lookup (lit "next_map") fields with
                       | Some v => v | None => VNone end = true)
            /\ (has_key (lit "next") fields = true
                \/ has_key (lit "next_map") fields = true)).
Proof.
  intros Hai Hp.
  destruct (@hinted_node_object story id u0 u1 j t started text_of_node)
    as (fields & text & Hj & Ht & Htext & _).
  subst t.
  rewrite (work_success ai_bridge_json first story j Hj Htext Hai Hp).
  rewrite (update_box fields (job_node_id j) scene labels _ u Htext).
  match goal with
  | |- context [scene ++ ?n] => exists text, fields, n
  end.
  split; [reflexivity|]. split; [exact Hj|].
  split; [now rewrite <- app_assoc|].
  split; [intros H; repeat split|].
  - destruct labels; discriminate.
  - destruct labels; [discriminate|]. cbn [app] in H.
    destruct (has_key (lit "next_map") fields); [|discriminate].
    destruct (truthy _); [reflexivity|discriminate].
  - destruct labels; [discriminate|]. cbn [app] in H.
    destruct (has_key (lit "next_map") fields); [now right|].
    destruct (has_key (lit "next") fields); [now left|].
    cbn [negb andb app map concat] in H.
    destruct (has_key (lit "next_map") fields); discriminate.
  - intros (Hl & Hm & Hk).
    destruct labels; [congruence|]. cbn [app].
    destruct (has_key (lit "next_map") fields) eqn:Em.
    + rewrite (Hm eq_refl). cbn [negb andb app]. now rewrite andb_false_r.
    + destruct Hk as [Hk|Hk]; [|discriminate]. rewrite Hk. reflexivity.
Qed.

End GeneratedText.

Lemma generated_text_shown_witness :
  exists text fields notes,
    VStr (lit "T") = VStr text
    /\ job_node (entry_job two_targets) = VDict fields
    /\ box_text (fst (work answers_two false two_targets
                        (entry_job two_targets) initial_ui))
       = VStr (text ++ [10; 10]%N ++ lit "S" ++ notes)
    /\ (notes = []
        <-> [lit "A"; lit "B"] <> []
            /\ (has_key (lit "next_map") fields = true ->
                truthy match lookup (lit "next_map") fields with
                       | Some v => v | None => VNone end = true)
            /\ (has_key (lit "next") fields = true
                \/ has_key (lit "next_map") fields = true)).
Proof.
  refine (@generated_text_shown answers_two two_targets
            (VStr (lit "start")) initial_ui (pending two_targets)
            (entry_job two_targets) (VStr (lit "T")) _ _ false
            (quoted "{'scene':'S','options':['A','B']}")
            (lit "S") [lit "A"; lit "B"] initial_ui _ _);
    vm_compute; reflexivity.
Defined.

(** ** Showing the nodes of a loaded story *)

(** X13 -- On a loaded story, showing a node that exists never raises,
    provided the options that reach the two buttons carry a label: the
    loader has checked everything else [show_node] relies on. *)
Theorem loaded_node_is_shown (src : source) (story : dict) (nid : str)
    (node : value) (u : ui) :
  load_story src = Return story ->
  lookup nid story = Some node ->
  (forall fields opts o,
      node = VDict fields ->
      lookup (lit "options") fields = Some (VList opts) ->
      In o (firstn 2 opts) ->
      exists l, py_getitem o (lit "label") = Return l) ->
  exists u' started, show_node (VStr nid) story u = (u', Return started).
Proof.
  intros Hload Hn Hlab.
  pose proof (load_story_sound _ Hload _ _ (lookup_In _ _ Hn)) as Hv.
  destruct node as [| | | | |l|fields]; try discriminate.
  specialize (Hlab fields).
  unfold valid_node in Hv.
  apply andb_true_iff in Hv as [Hv _].
  apply andb_true_iff in Hv as [Hv _].
  apply andb_true_iff in Hv as [Htext Hopts].
  destruct (lookup (lit "text") fields) as [[| | | |t| |]|] eqn:Et;
    try discriminate.
  unfold show_node, render_text, bindM, lift, modify, ret, story_getitem.
  rewrite Hn, !py_get_object. unfold py_getitem. rewrite Et.
  cbn [py_add_str].
  destruct (lookup (lit "options") fields) as [opts|] eqn:Eo.
  2:{ cbn [truthy].
      destruct (truthy match lookup (lit "next_hint") fields with
                       | Some v => v | None => VStr [] end);
        eexists; eexists; reflexivity. }
  destruct opts as [| | | | |opts|]; try discriminate.
  destruct opts as [|o1 rest].
  { cbn [truthy].
    destruct (truthy match lookup (lit "next_hint") fields with
                     | Some v => v | None => VStr [] end);
      eexists; eexists; reflexivity. }
  cbn [truthy].
  assert (Hl : exists labels,
             map (fun o => py_getitem o (lit "label")) (firstn 2 (o1 :: rest))
             = map (@Return value) labels).
  { destruct (Hlab (o1 :: rest) o1 eq_refl eq_refl) as [l1 H1];
      [now left|].
    destruct rest as [|o2 rest].
    - exists [l1]. cbn [firstn map]. now rewrite H1.
    - destruct (Hlab (o1 :: o2 :: rest) o2 eq_refl eq_refl) as [l2 H2];
        [right; now left|].
      exists [l1; l2]. cbn [firstn map]. now rewrite H1, H2. }
  destruct Hl as [labels Hl].
  destruct (set_buttons_routes (o1 :: rest) labels
              (set_box (VStr t) (set_status (lit "Node: " ++ nid) u)) Hl)
    as (u' & E & _).
  rewrite E. eexists; eexists; reflexivity.
Qed.

Lemma loaded_node_is_shown_witness :
  exists u' started,
    show_node (VStr (lit "a")) lone_choice initial_ui = (u', Return started).
Proof.
  refine (@loaded_node_is_shown
            (file (quoted
               "{'a': {'text': 'A', 'options': [{'label': 'again', 'next': 'a'}]}}"))
            lone_choice (lit "a") _ initial_ui _ _ _).
  - vm_compute. reflexivity.
  - vm_compute. reflexivity.
  - intros fields opts o Hf Ho Hin. injection Hf as <-.
    vm_compute in Ho. injection Ho as <-.
    destruct Hin as [<-|[]]. eexists. reflexivity.
Defined.

(** ** Options of the wrong type *)

Lemma all_strs_None (l : list value) :
  all_strs l = None <-> exists x, In x l /\ is_str x = false.
Proof.
  induction l as [|v l IH]; simpl.
  - split; [discriminate|]. intros (x & [] & _).
  - destruct v; try (split; [intros _; eexists; split;
                                [left; reflexivity|reflexivity]
                            |reflexivity]).
    destruct (all_strs l) as [ss|].
    + split; [discriminate|]. intros (x & [<-|Hin] & Hx); [discriminate|].
      assert (H : exists x, In x l /\ is_str x = false) by eauto.
      apply IH in H. discriminate.
    + split; [|reflexivity]. intros _.
      destruct (proj1 IH eq_refl) as (x & Hin & Hx). eauto.
Qed.

(** X14 -- The options of an answer are taken all or none: one entry that
    is not a string, wherever it stands in the list, discards every label,
    the first two included, while the scene is kept. *)
Theorem options_all_or_none (d : dict) (l : list value) (x : value) :
  lookup (lit "options") d = Some (VList l) ->
  In x l -> is_str x = false ->
  scene_and_options (VDict d)
  = Return (strip match lookup (lit "scene") d with
                  | Some (VStr s) => s
                  | _ => []
                  end, []).
Proof.
  intros Hl Hin Hx. rewrite scene_and_options_dict, Hl.
  assert (H : all_strs l = None) by (apply all_strs_None; eauto).
  now rewrite H.
Qed.

Lemma options_all_or_none_witness :
  parse_scene_and_options_json
    (quoted "{'scene': ' S ', 'options': ['A', 'B', 3]}")
  = Return (lit "S", []).
Proof.
  change (parse_scene_and_options_json
            (quoted "{'scene': ' S ', 'options': ['A', 'B', 3]}"))
    with (scene_and_options
            (VDict [(lit "scene", VStr (lit " S "));
                    (lit "options",
                     VList [VStr (lit "A"); VStr (lit "B"); VInt 3])])).
  rewrite (@options_all_or_none _ [VStr (lit "A"); VStr (lit "B"); VInt 3]
             (VInt 3)); [reflexivity|reflexivity| |reflexivity].
  right; right; left; reflexivity.
Defined.

(** ** An answer that is not an object: no way on *)

Section NoContinuation.

Variable ai_bridge_json : value -> value -> result str.
Variable story : dict.
Variables (id : value) (u0 u1 : ui) (j : job) (t : value).

Hypothesis started : show_node id story u0 = (u1, Return (Some j)).
Hypothesis text_of_node : py_getitem (job_node j) (lit "text") = Return t.

(** C6 -- When the service answers with JSON that is not an object, there
    is no raw label and no generated option survives, yet no continuation
    choice is presented: the parser raises [AttributeError] inside the
    [try] block of the thread, the fallback of [update] is never reached,
    and the window keeps the generating notice with no button, with the
    error callback as the only effect (the dialog, or [NameError] once the
    exception variable is unbound).  The fallback itself works whenever the
    answer parses ([fallback_choices]). *)
Theorem continuation_missed_on_non_object (out : str) (data : value) :
  ai_bridge_json t (job_hint j) = Return out ->
  decode_with_recovery out = Some data ->
  (forall d, data <> VDict d) ->
  parse_scene_and_options_json out = Raise AttributeError
  /\ routes u1 = []
  /\ work ai_bridge_json false story j u1 = (u1, Raise NameError)
  /\ work ai_bridge_json true story j u1
     = (showerror (lit "AI Error") AttributeError u1, Return tt)
  /\ routes (fst (work ai_bridge_json false story j u1)) = []
  /\ routes (fst (work ai_bridge_json true story j u1)) = [].
Proof.
  intros Hai Hd Hn.
  assert (Hp : parse_scene_and_options_json out = Raise AttributeError).
  { unfold parse_scene_and_options_json. rewrite Hd.
    now apply scene_and_options_not_dict. }
  destruct (@hinted_node_object story id u0 u1 j t started text_of_node)
    as (fields & text & _ & _ & _ & _ & _ & Hr).
  assert (Hw : forall first,
             work ai_bridge_json first story j u1
             = error_callback (if first then Some AttributeError else None) u1).
  { intros first. unfold work. rewrite text_of_node. cbn [bind].
    rewrite Hai. cbn [bind]. rewrite Hp. reflexivity. }
  rewrite !Hw. repeat split; auto.
Qed.

End NoContinuation.

Lemma continuation_missed_on_non_object_witness :
  parse_scene_and_options_json (lit "[]") = Raise AttributeError
  /\ routes (pending no_route) = []
  /\ work (fun _ _ => Return (lit "[]")) false no_route (entry_job no_route)
       (pending no_route)
     = (pending no_route, Raise NameError)
  /\ work (fun _ _ => Return (lit "[]")) true no_route (entry_job no_route)
       (pending no_route)
     = (showerror (lit "AI Error") AttributeError (pending no_route),
        Return tt)
  /\ routes (fst (work (fun _ _ => Return (lit "[]")) false no_route
                    (entry_job no_route) (pending no_route))) = []
  /\ routes (fst (work (fun _ _ => Return (lit "[]")) true no_route
                    (entry_job no_route) (pending no_route))) = [].
Proof.
  refine (@continuation_missed_on_non_object
            (fun _ _ => Return (lit "[]")) no_route (VStr (lit "start"))
            initial_ui (pending no_route) (entry_job no_route)
            (VStr (lit "T")) _ _ (lit "[]") (VList []) _ _ _);
    try (vm_compute; reflexivity).
  intros d H. discriminate.
Defined.
